(** * Broadcast server: a shallow embedding of [src/broadcast-server.ts]

    The program is one Node.js script with two run modes.  [start] is to
    host a WebSocket hub that re-sends every inbound message to every open
    client; [connect] is to run an interactive client that sends stdin
    lines to the hub and prints what the hub relays.

    The embedding follows the script function by function:

    - JavaScript strings are sequences of UTF-16 code units, buffers are
      sequences of bytes; [Buffer.prototype.toString] and the text-frame
      encoding used by [ws.send] are the UTF-8 codecs of the runtime;
    - handlers are computations in a small monad [Js] with a state, a log
      of the calls made to the outside world (console, sockets, listener,
      [process.exit]) and three ways to finish: normally, by
      [process.exit] (which never returns) or by a thrown exception;
    - the event loop delivers one event at a time to a process; a process
      that has exited handles nothing any more;
    - [process] is what line 3 imports: the namespace object of
      [import * as process from 'process'].  It has the members the script
      reads ([argv], [exit], [stdin], [stdout]) but not [on], which the
      process object inherits from its prototype: the two registrations
      of the signal handlers throw, at the end of [startServer] and of
      [startClient].  The handlers are embedded as the script defines
      them; [Hub.boot] and [Peer.boot] are the processes they would serve,
      [main] is what the script does;
    - the [ws] library (taken as of its version 8) and the runtime are not
      part of the script: what they do to a socket, to the listener and to
      the set [wss.clients] before a handler runs is written out next to
      the handlers, in [WebSocket_send], [WebSocket_close], [Hub.handle]
      and [Peer.handle]. *)

From Stdlib Require Import ZArith List String Ascii Bool Lia DecimalString.
From stdpp Require Import gmap.
Import ListNotations.
Open Scope Z_scope.

(* ================================================================== *)
(** * JavaScript strings and buffers *)
(* ================================================================== *)

(** A JavaScript string: its UTF-16 code units. *)
Definition jsstring := list Z.

(** A [Buffer]: its bytes. *)
Definition Buffer := list Z.

(** A string literal of the source (all of them are ASCII). *)
Definition lit (s : string) : jsstring :=
  List.map (fun a => Z.of_N (N_of_ascii a)) (list_ascii_of_string s).
Arguments lit s%_string.

(** [a === b] on strings. *)
Fixpoint str_eqb (a b : jsstring) : bool :=
  match a, b with
  | [], [] => true
  | x :: a', y :: b' => (x =? y) && str_eqb a' b'
  | _, _ => false
  end.

(** [String(n)] for an integral number, as a template literal renders it. *)
Definition Number_toString (n : Z) : jsstring :=
  lit (NilZero.string_of_int (Z.to_int n)).

(** The lower-case mapping of an ASCII code unit: [A]-[Z] go to [a]-[z]. *)
Definition lower_unit (u : Z) : Z :=
  if (65 <=? u) && (u <=? 90) then u + 32 else u.

Definition is_ascii (u : Z) : bool := (0 <=? u) && (u <=? 127).

(** The case mapping of the runtime on the strings that are not all
    ASCII.  It follows the Unicode tables, which are no part of the
    script (and is not unit by unit: the capital sigma depends on its
    place in the word, a capital of a supplementary plane is two code
    units). *)
Definition CaseTable : Type := jsstring -> jsstring.

(** [String.prototype.toLowerCase]: unit by unit on an ASCII string, by
    the tables of the runtime on any other. *)
Definition toLowerCase (table : CaseTable) (s : jsstring) : jsstring :=
  if forallb is_ascii s then List.map lower_unit s else table s.

Module Utf.

Definition in_range (lo hi x : Z) : bool := (lo <=? x) && (x <=? hi).

(** U+FFFD, which the decoders put in place of ill-formed input. *)
Definition REPLACEMENT : Z := 0xFFFD.

(** A Unicode scalar value: a code point that is not a surrogate. *)
Definition scalar (c : Z) : Prop :=
  0 <= c <= 0x10FFFF /\ ~ (0xD800 <= c <= 0xDFFF).

(** Range of the second byte of a three-byte form, by lead byte. *)
Definition lo3 (b0 : Z) : Z := if b0 =? 0xE0 then 0xA0 else 0x80.
Definition hi3 (b0 : Z) : Z := if b0 =? 0xED then 0x9F else 0xBF.

(** Range of the second byte of a four-byte form, by lead byte. *)
Definition lo4 (b0 : Z) : Z := if b0 =? 0xF0 then 0x90 else 0x80.
Definition hi4 (b0 : Z) : Z := if b0 =? 0xF4 then 0x8F else 0xBF.

(** The UTF-8 decoder of the runtime.  Each item of the result is the
    code point of one well-formed sequence, or [None] for a maximal
    ill-formed part; after an ill-formed part decoding resumes at the
    byte that broke it. *)
Fixpoint scan (bs : Buffer) : list (option Z) :=
  match bs with
  | [] => []
  | b0 :: r0 =>
    if in_range 0x00 0x7F b0 then Some b0 :: scan r0
    else if in_range 0xC2 0xDF b0 then
      match r0 with
      | [] => [None]
      | b1 :: r1 =>
        if in_range 0x80 0xBF b1
        then Some ((b0 - 0xC0) * 64 + (b1 - 0x80)) :: scan r1
        else None :: scan r0
      end
    else if in_range 0xE0 0xEF b0 then
      match r0 with
      | [] => [None]
      | b1 :: r1 =>
        if in_range (lo3 b0) (hi3 b0) b1 then
          match r1 with
          | [] => [None]
          | b2 :: r2 =>
            if in_range 0x80 0xBF b2
            then Some ((b0 - 0xE0) * 4096 + (b1 - 0x80) * 64 + (b2 - 0x80))
                   :: scan r2
            else None :: scan r1
          end
        else None :: scan r0
      end
    else if in_range 0xF0 0xF4 b0 then
      match r0 with
      | [] => [None]
      | b1 :: r1 =>
        if in_range (lo4 b0) (hi4 b0) b1 then
          match r1 with
          | [] => [None]
          | b2 :: r2 =>
            if in_range 0x80 0xBF b2 then
              match r2 with
              | [] => [None]
              | b3 :: r3 =>
                if in_range 0x80 0xBF b3
                then Some ((b0 - 0xF0) * 262144 + (b1 - 0x80) * 4096
                           + (b2 - 0x80) * 64 + (b3 - 0x80)) :: scan r3
                else None :: scan r2
              end
            else None :: scan r1
          end
        else None :: scan r0
      end
    else None :: scan r0
  end.

Definition utf8_decode (bs : Buffer) : list Z :=
  List.map (default REPLACEMENT) (scan bs).

(** Well-formed UTF-8: the decoder meets no ill-formed part.  Every text
    frame carries such a payload. *)
Definition is_utf8 (bs : Buffer) : bool :=
  forallb (fun o => match o with Some _ => true | None => false end) (scan bs).

(** UTF-8 form of one code point. *)
Definition utf8_of_cp (c : Z) : Buffer :=
  if c <? 0x80 then [c]
  else if c <? 0x800 then [0xC0 + c / 64; 0x80 + c mod 64]
  else if c <? 0x10000 then
    [0xE0 + c / 4096; 0x80 + (c / 64) mod 64; 0x80 + c mod 64]
  else
    [0xF0 + c / 262144; 0x80 + (c / 4096) mod 64;
     0x80 + (c / 64) mod 64; 0x80 + c mod 64].

(** UTF-16 form of one code point. *)
Definition utf16_of_cp (c : Z) : jsstring :=
  if c <? 0x10000 then [c]
  else [0xD800 + (c - 0x10000) / 1024; 0xDC00 + (c - 0x10000) mod 1024].

(** Code points of a JavaScript string; a surrogate that is not part of
    a pair reads as U+FFFD, as [Buffer.from(s, 'utf8')] does. *)
Fixpoint utf16_decode (s : jsstring) : list Z :=
  match s with
  | [] => []
  | u :: r =>
    if in_range 0xD800 0xDBFF u then
      match r with
      | [] => [REPLACEMENT]
      | v :: r' =>
        if in_range 0xDC00 0xDFFF v
        then (0x10000 + (u - 0xD800) * 1024 + (v - 0xDC00)) :: utf16_decode r'
        else REPLACEMENT :: utf16_decode r
      end
    else if in_range 0xDC00 0xDFFF u then REPLACEMENT :: utf16_decode r
    else u :: utf16_decode r
  end.

(** [buf.toString()]: decode as UTF-8 into a JavaScript string. *)
Definition toString (data : Buffer) : jsstring :=
  flat_map utf16_of_cp (utf8_decode data).

(** The payload of the text frame that [ws.send(s)] writes for a string. *)
Definition text_payload (s : jsstring) : Buffer :=
  flat_map utf8_of_cp (utf16_decode s).

End Utf.

(* ================================================================== *)
(** * Handlers as computations *)
(* ================================================================== *)

(** An [Error] object, as far as the program looks at it. *)
Inductive JsError := Error (message : jsstring).

(** An argument of [console.log] / [console.error]. *)
Inductive Value :=
| VStr (s : jsstring)
| VNum (n : Z)
| VErr (e : JsError).

(** The calls the program makes to the outside world, in program order.
    Sockets are named by the number of the object they were made as. *)
Inductive Effect :=
| ConsoleLog (args : list Value)            (* stdout *)
| ConsoleError (args : list Value)          (* stderr *)
| WsSend (ws : nat) (text : jsstring) (written : bool)
    (* a text frame handed to the socket; [written] tells whether the
       transport took it *)
| WsClose (ws : nat) (code : Z) (reason : jsstring)
    (* a close handshake started on the socket *)
| WssClose                                  (* [wss.close(cb)] *)
| CreateInterface                           (* [readline.createInterface] *)
| ProcessExit (code : Z).                   (* [process.exit(code)] *)

(** How a piece of JavaScript finishes. [process.exit] never returns. *)
Inductive Outcome (A : Type) :=
| Normal (a : A)
| Exits (code : Z)
| Throws (e : JsError).
Arguments Normal {A} a.
Arguments Exits {A} code.
Arguments Throws {A} e.

Definition Js (S A : Type) : Type := S -> Outcome A * S * list Effect.

Definition ret {S A} (a : A) : Js S A := fun s => (Normal a, s, []).

Definition bind {S A B} (m : Js S A) (k : A -> Js S B) : Js S B :=
  fun s =>
    match m s with
    | (Normal a, s1, e1) => let '(o, s2, e2) := k a s1 in (o, s2, e1 ++ e2)
    | (Exits c, s1, e1) => (Exits c, s1, e1)
    | (Throws x, s1, e1) => (Throws x, s1, e1)
    end.

Notation "x <- m ;; k" := (bind m (fun x => k))
  (at level 100, m at next level, k at level 200, right associativity).
Notation "m ;; k" := (bind m (fun _ => k))
  (at level 100, k at level 200, right associativity).

Definition gets {S A} (f : S -> A) : Js S A := fun s => (Normal (f s), s, []).
Definition modify {S} (f : S -> S) : Js S unit := fun s => (Normal tt, f s, []).
Definition emit {S} (e : Effect) : Js S unit := fun s => (Normal tt, s, [e]).
Definition throw {S A} (e : JsError) : Js S A := fun s => (Throws e, s, []).

Definition console_log {S} (args : list Value) : Js S unit := emit (ConsoleLog args).
Definition console_error {S} (args : list Value) : Js S unit := emit (ConsoleError args).

(** [process.exit(code)]: the rest of the handler does not run. *)
Definition process_exit {S A} (code : Z) : Js S A :=
  fun s => (Exits code, s, [ProcessExit code]).

(** [process.on(event, listener)], as the script can call it.  [process]
    is the namespace object of line 3, which has no member [on]: the call
    is a call of [undefined] and throws a [TypeError]; no listener is
    registered. *)
Definition process_on_error : JsError :=
  Error (lit "process.on is not a function").

Definition process_on {S} (event : jsstring) (listener : Js S unit) : Js S unit :=
  throw process_on_error.

(** [xs.forEach(f)]; an exception thrown by [f] ends the iteration. *)
Fixpoint forEach {S X} (xs : list X) (f : X -> Js S unit) : Js S unit :=
  match xs with
  | [] => ret tt
  | x :: r => f x ;; forEach r f
  end.

(** Run [cb] once for each of [n] registered one-shot listeners. *)
Fixpoint emitOnce {S} (n : nat) (cb : Js S unit) : Js S unit :=
  match n with
  | O => ret tt
  | S n' => cb ;; emitOnce n' cb
  end.

(* ------------------------------------------------------------------ *)
(** ** The process *)

Inductive Status :=
| Running
| Exited (code : Z)
| Uncaught (e : JsError).   (* an exception reached the event loop *)

Record Process (S : Type) := {
  state : S;
  trace : list Effect;
  status : Status;
}.
Arguments state {S} _.
Arguments trace {S} _.
Arguments status {S} _.

Definition outcome_of {S A} (r : Outcome A * S * list Effect) : Outcome A := fst (fst r).
Definition state_of {S A} (r : Outcome A * S * list Effect) : S := snd (fst r).
Definition effects_of {S A} (r : Outcome A * S * list Effect) : list Effect := snd r.

(** The status of the process after a handler that finished with [o]. *)
Definition finish {A} (o : Outcome A) : Status :=
  match o with
  | Normal _ => Running
  | Exits c => Exited c
  | Throws e => Uncaught e
  end.

(** The event loop runs one handler to completion; a process that is no
    longer running handles nothing. *)
Definition dispatch {S} (h : Js S unit) (p : Process S) : Process S :=
  match status p with
  | Running =>
    let r := h (state p) in
    {| state := state_of r;
       trace := trace p ++ effects_of r;
       status := finish (outcome_of r) |}
  | _ => p
  end.

(** The exit code the operating system sees. *)
Definition exit_code {S} (p : Process S) : option Z :=
  match status p with
  | Running => None
  | Exited c => Some c
  | Uncaught _ => Some 1
  end.


(** The event loop of a process whose events are handled by [handle]. *)
Section EventLoop.
Context {S E : Type} (handle : E -> Js S unit).

Definition loop_step (ev : E) (p : Process S) : Process S :=
  dispatch (handle ev) p.

Definition loop_run (evs : list E) (p : Process S) : Process S :=
  fold_left (fun q ev => loop_step ev q) evs p.

End EventLoop.

(* ------------------------------------------------------------------ *)
(** ** Sockets of the [ws] library *)

Inductive ReadyState := CONNECTING | OPEN | CLOSING | CLOSED.

Definition ReadyState_eqb (a b : ReadyState) : bool :=
  match a, b with
  | CONNECTING, CONNECTING | OPEN, OPEN | CLOSING, CLOSING | CLOSED, CLOSED => true
  | _, _ => false
  end.

(** A [WebSocket] object: its [readyState], and whether the connection
    under it still takes writes.  A write that fails is reported later
    through the socket's own ['error'] event. *)
Record WebSocket := {
  readyState : ReadyState;
  writable : bool;
}.

Definition with_readyState (rs : ReadyState) (w : WebSocket) : WebSocket :=
  {| readyState := rs; writable := writable w |}.

Definition not_open_error : JsError :=
  Error (lit "WebSocket is not open: readyState 0 (CONNECTING)").

(** [ws.send(text)] without a callback: throws while connecting, hands a
    text frame to the transport when open, does nothing after that. *)
Definition WebSocket_send (c : nat) (w : WebSocket) (text : jsstring)
  : Outcome unit * list Effect :=
  match readyState w with
  | CONNECTING => (Throws not_open_error, [])
  | OPEN => (Normal tt, [WsSend c text (writable w)])
  | CLOSING | CLOSED => (Normal tt, [])
  end.

(** [ws.close(code, reason)]: an open socket starts the close handshake
    and is [CLOSING] from then on; a socket still connecting is aborted;
    a socket already closing or closed is left alone. *)
Definition WebSocket_close (c : nat) (w : WebSocket) (code : Z) (reason : jsstring)
  : WebSocket * list Effect :=
  match readyState w with
  | OPEN => (with_readyState CLOSING w, [WsClose c code reason])
  | CONNECTING => (with_readyState CLOSING w, [])
  | CLOSING | CLOSED => (w, [])
  end.

Inductive Signal := SIGINT | SIGTERM.

Definition PORT : Z := 8080.

(* ================================================================== *)
(** * The hub: [startServer] and [setupGracefulShutdownServer] *)
(* ================================================================== *)

Module Hub.

(** State of the [WebSocketServer]. *)
Inductive ServerState := SrvRunning | SrvClosing | SrvClosed.

Record State := {
  sockets : gmap nat WebSocket;  (* the socket objects made so far *)
  clients : list nat;            (* [wss.clients], a Set, in insertion order *)
  nextId : nat;                  (* the next socket object *)
  server : ServerState;
  closeListeners : nat;          (* callbacks given to [wss.close], not yet run *)
}.

Definition set_sockets (f : gmap nat WebSocket -> gmap nat WebSocket) (s : State) : State :=
  {| sockets := f (sockets s); clients := clients s; nextId := nextId s;
     server := server s; closeListeners := closeListeners s |}.

Definition set_clients (f : list nat -> list nat) (s : State) : State :=
  {| sockets := sockets s; clients := f (clients s); nextId := nextId s;
     server := server s; closeListeners := closeListeners s |}.

(** [client.readyState] *)
Definition readyStateOf (c : nat) : Js State ReadyState :=
  gets (fun s => match sockets s !! c with
                 | Some w => readyState w
                 | None => CLOSED
                 end).

(** [client.send(text)] *)
Definition send (c : nat) (text : jsstring) : Js State unit :=
  fun s =>
    match sockets s !! c with
    | Some w => let '(o, effs) := WebSocket_send c w text in (o, s, effs)
    | None => (Normal tt, s, [])
    end.

(** [client.close(code, reason)] *)
Definition close (c : nat) (code : Z) (reason : jsstring) : Js State unit :=
  fun s =>
    match sockets s !! c with
    | Some w =>
      let '(w', effs) := WebSocket_close c w code reason in
      (Normal tt, set_sockets (insert c w') s, effs)
    | None => (Normal tt, s, [])
    end.

(** [wss.close(cb)]: the callback waits for the listener to be closed;
    the listener is asked to close on the first call only. *)
Definition wss_close : Js State unit :=
  emit WssClose ;;
  modify (fun s =>
    {| sockets := sockets s; clients := clients s; nextId := nextId s;
       server := match server s with SrvRunning => SrvClosing | x => x end;
       closeListeners := S (closeListeners s) |}).

(** The callback given to [wss.close] (lines 19-22). *)
Definition serverClosed : Js State unit :=
  console_log [VStr (lit "Server has closed.")] ;;
  process_exit 0.

(** [closeAllConnections] (lines 11-23), the handler of SIGINT and
    SIGTERM. *)
Definition closeAllConnections : Js State unit :=
  console_log [VStr (10 :: lit "Shutting down server...")] ;;
  cs <- gets clients ;;
  forEach cs (fun client =>
    rs <- readyStateOf client ;;
    if ReadyState_eqb rs OPEN
    then close client 1001 (lit "Server shutting down")
    else ret tt) ;;
  wss_close.

(** [setupGracefulShutdownServer(wss)] (lines 10-27): it defines
    [closeAllConnections] and registers it for both signals, through
    [process.on]. *)
Definition setupGracefulShutdownServer : Js State unit :=
  process_on (lit "SIGINT") closeAllConnections ;;
  process_on (lit "SIGTERM") closeAllConnections.

(** The listener lines 25-26 name for each signal: the same for both, and
    nothing that remembers a signal was handled. *)
Definition onSignal (sig : Signal) : Js State unit :=
  match sig with
  | SIGINT => closeAllConnections
  | SIGTERM => closeAllConnections
  end.

(** [wss.on('listening', ...)] (lines 48-50) *)
Definition onListening : Js State unit :=
  console_log [VStr (lit "Broadcast server started, listening on ws://localhost:"
                     ++ Number_toString PORT)].

(** [wss.on('connection', ...)] (lines 52-53), up to the registration of
    the socket's own handlers. *)
Definition onConnection : Js State unit :=
  cs <- gets clients ;;
  console_log [VStr (lit "New client connected. Total clients:");
               VNum (Z.of_nat (length cs))].

(** [ws.on('message', ...)] (lines 56-65) *)
Definition onMessage (data : Buffer) : Js State unit :=
  let msg := Utf.toString data in
  console_log [VStr (lit "Received: " ++ msg)] ;;
  cs <- gets clients ;;
  forEach cs (fun client =>
    rs <- readyStateOf client ;;
    if ReadyState_eqb rs OPEN
    then send client msg
    else ret tt).

(** [ws.on('close', ...)] (lines 67-69); the library has taken the socket
    out of [wss.clients] by then. *)
Definition onClose : Js State unit :=
  cs <- gets clients ;;
  console_log [VStr (lit "Client disconnected. Total clients:");
               VNum (Z.of_nat (length cs) - 1)].

(** [ws.on('error', ...)] (lines 71-73) *)
Definition onError (err : JsError) : Js State unit :=
  console_error [VStr (lit "WebSocket error:"); VErr err].

(** [wss.on('error', ...)] (lines 76-78) *)
Definition onServerError (err : JsError) : Js State unit :=
  console_error [VStr (lit "Server error:"); VErr err].

(** What the event loop can deliver to the hub. *)
Inductive Event :=
| Listening                              (* the listener is bound *)
| ServerError (err : JsError)            (* the listener failed, e.g. on bind *)
| Connection                             (* a handshake completed *)
| Message (c : nat) (data : Buffer)      (* a message arrived on socket [c] *)
| WriteFailure (c : nat)                 (* the connection under [c] broke *)
| CloseFrame (c : nat)                   (* the remote end of [c] asked to close *)
| SocketError (c : nat) (err : JsError)
| SocketClose (c : nat)                  (* socket [c] is closed for good *)
| Signalled (sig : Signal)
| ListenerClosed.                        (* the listener finished closing *)

(** The library's part of a socket event: what [ws] does to the socket
    before the program's handler runs. *)
Definition update (c : nat) (f : WebSocket -> WebSocket) : Js State unit :=
  modify (set_sockets (fun h => match h !! c with
                                | Some w => insert c (f w) h
                                | None => h
                                end)).

Definition leaving (w : WebSocket) : WebSocket :=
  match readyState w with
  | CLOSED => w
  | _ => with_readyState CLOSING w
  end.

(** A new socket object, open, added to [wss.clients]. *)
Definition accept : Js State unit :=
  modify (fun s =>
    {| sockets := insert (nextId s) {| readyState := OPEN; writable := true |} (sockets s);
       clients := if existsb (Nat.eqb (nextId s)) (clients s)
                  then clients s else clients s ++ [nextId s];
       nextId := S (nextId s);
       server := server s; closeListeners := closeListeners s |}).

(** Socket events reach a handler only on a socket that exists. *)
Definition on (c : nat) (h : Js State unit) : Js State unit :=
  known <- gets (fun s => sockets s !! c) ;;
  match known with
  | Some _ => h
  | None => ret tt
  end.

Definition handle (ev : Event) : Js State unit :=
  match ev with
  | Listening => onListening
  | ServerError err => onServerError err
  | Connection =>
    srv <- gets server ;;
    match srv with
    | SrvRunning => accept ;; onConnection
    | _ => ret tt
    end
  | Message c data => on c (onMessage data)
  | WriteFailure c =>
    update c (fun w => {| readyState := readyState w; writable := false |})
  | CloseFrame c => update c leaving
  | SocketError c err => on c (update c leaving ;; onError err)
  | SocketClose c =>
    on c (update c (with_readyState CLOSED) ;;
          modify (set_clients (List.filter (fun x => negb (Nat.eqb x c)))) ;;
          onClose)
  | Signalled sig => onSignal sig
  | ListenerClosed =>
    n <- gets closeListeners ;;
    modify (fun s =>
      {| sockets := sockets s; clients := clients s; nextId := nextId s;
         server := SrvClosed; closeListeners := 0 |}) ;;
    emitOnce n serverClosed
  end.

(** [startServer()] up to line 78: the server object, with no client yet
    and its handlers registered; nothing is printed. *)
Definition startServer : State :=
  {| sockets := ∅; clients := []; nextId := 0;
     server := SrvRunning; closeListeners := 0 |}.

Definition step : Event -> Process State -> Process State := loop_step handle.

Definition run : list Event -> Process State -> Process State := loop_run handle.

(** The hub with its handlers in place, before the first event. *)
Definition boot : Process State :=
  {| state := startServer; trace := []; status := Running |}.

(** [startServer()] as the script runs it (lines 45-81), after a top level
    that has made the calls [tr]: the last statement, line 80, is the call
    of [setupGracefulShutdownServer]. *)
Definition launch (tr : list Effect) : Process State :=
  dispatch setupGracefulShutdownServer
           {| state := startServer; trace := tr; status := Running |}.

End Hub.

(* ================================================================== *)
(** * The peer: [startClient] and [setupGracefulShutdownClient] *)
(* ================================================================== *)

Module Peer.

(** The one socket of the client. *)
Definition ws : nat := 0%nat.

Record State := {
  socket : WebSocket;
  rl : bool;          (* the readline interface exists: lines are consumed *)
}.

Definition set_socket (f : WebSocket -> WebSocket) (s : State) : State :=
  {| socket := f (socket s); rl := rl s |}.

Definition address : jsstring :=
  lit "ws://localhost:" ++ Number_toString PORT.

(** [ws.send(text)] *)
Definition send (text : jsstring) : Js State unit :=
  fun s => let '(o, effs) := WebSocket_send ws (socket s) text in (o, s, effs).

(** [ws.close(code, reason)] *)
Definition close (code : Z) (reason : jsstring) : Js State unit :=
  fun s =>
    let '(w', effs) := WebSocket_close ws (socket s) code reason in
    (Normal tt, set_socket (fun _ => w') s, effs).

(** [shutdownClient] (lines 30-36), the handler of SIGINT and SIGTERM. *)
Definition shutdownClient : Js State unit :=
  console_log [VStr (10 :: lit "Disconnecting client...")] ;;
  rs <- gets (fun s => readyState (socket s)) ;;
  (if ReadyState_eqb rs OPEN then close 1000 (lit "Client exit") else ret tt) ;;
  process_exit 0.

(** [setupGracefulShutdownClient(ws)] (lines 29-40): it defines
    [shutdownClient] and registers it for both signals, through
    [process.on]. *)
Definition setupGracefulShutdownClient : Js State unit :=
  process_on (lit "SIGINT") shutdownClient ;;
  process_on (lit "SIGTERM") shutdownClient.

(** The listener lines 38-39 name for each signal: the same for both. *)
Definition onSignal (sig : Signal) : Js State unit :=
  match sig with
  | SIGINT => shutdownClient
  | SIGTERM => shutdownClient
  end.

(** [rl.on('line', ...)] (lines 99-105) *)
Definition onLine (line : jsstring) : Js State unit :=
  rs <- gets (fun s => readyState (socket s)) ;;
  if ReadyState_eqb rs OPEN
  then send line
  else console_log [VStr (lit "Connection is not open. Unable to send message.")].

(** [ws.on('open', ...)] (lines 90-106) *)
Definition onOpen : Js State unit :=
  console_log [VStr (lit "Connected to server at " ++ address
                     ++ lit ". Type messages and hit Enter to send.")] ;;
  emit CreateInterface ;;
  modify (fun s => {| socket := socket s; rl := true |}).

(** [ws.on('message', ...)] (lines 108-111) *)
Definition onMessage (data : Buffer) : Js State unit :=
  console_log [VStr (lit "> " ++ Utf.toString data)].

(** [ws.on('close', ...)] (lines 113-116) *)
Definition onClose (code : Z) (reason : Buffer) : Js State unit :=
  console_log [VStr (lit "Disconnected from server (code: " ++ Number_toString code
                     ++ lit ", reason: " ++ Utf.toString reason ++ lit ")")] ;;
  process_exit 0.

(** [ws.on('error', ...)] (lines 118-120) *)
Definition onError (err : JsError) : Js State unit :=
  console_error [VStr (lit "WebSocket error:"); VErr err].

(** What the event loop can deliver to the peer. *)
Inductive Event :=
| Open                                  (* the handshake completed *)
| Line (line : jsstring)                (* a line was typed *)
| Message (data : Buffer)
| WriteFailure                          (* the connection broke *)
| CloseFrame                            (* the hub asked to close *)
| SocketError (err : JsError)           (* also: the connection attempt failed *)
| Close (code : Z) (reason : Buffer)    (* the socket is closed for good *)
| Signalled (sig : Signal).

Definition leaving (w : WebSocket) : WebSocket :=
  match readyState w with
  | CLOSED => w
  | _ => with_readyState CLOSING w
  end.

Definition handle (ev : Event) : Js State unit :=
  match ev with
  | Open =>
    rs <- gets (fun s => readyState (socket s)) ;;
    match rs with
    | CONNECTING => modify (set_socket (with_readyState OPEN)) ;; onOpen
    | _ => ret tt
    end
  | Line line =>
    reading <- gets rl ;;
    if reading : bool then onLine line else ret tt
  | Message data => onMessage data
  | WriteFailure =>
    modify (set_socket (fun w => {| readyState := readyState w; writable := false |}))
  | CloseFrame => modify (set_socket leaving)
  | SocketError err => modify (set_socket leaving) ;; onError err
  | Close code reason =>
    modify (set_socket (with_readyState CLOSED)) ;; onClose code reason
  | Signalled sig => onSignal sig
  end.

(** [startClient()] up to line 120: the socket starts connecting, its
    handlers are registered; nothing is printed. *)
Definition startClient : State :=
  {| socket := {| readyState := CONNECTING; writable := true |}; rl := false |}.

Definition step : Event -> Process State -> Process State := loop_step handle.

Definition run : list Event -> Process State -> Process State := loop_run handle.

(** The peer with its handlers in place, before the first event. *)
Definition boot : Process State :=
  {| state := startClient; trace := []; status := Running |}.

(** [startClient()] as the script runs it (lines 86-123), after a top level
    that has made the calls [tr]: the last statement, line 122, is the
    call of [setupGracefulShutdownClient]. *)
Definition launch (tr : list Effect) : Process State :=
  dispatch setupGracefulShutdownClient
           {| state := startClient; trace := tr; status := Running |}.

End Peer.

(* ================================================================== *)
(** * Entry point *)
(* ================================================================== *)

Inductive Launch := LaunchServer | LaunchClient.

Definition usage : jsstring := lit "Usage: broadcast-server <start|connect>".

Definition undefined_error : JsError :=
  Error (lit "Cannot read properties of undefined (reading 'toLowerCase')").

(** The top level of the script (lines 128-144); [argv] is
    [process.argv.slice(2)].  Reading [argv[0]] of an empty array gives
    [undefined], on which [toLowerCase] throws. *)
Definition entry (table : CaseTable) (argv : list jsstring) : Js unit Launch :=
  (if (length argv =? 0)%nat
   then console_error [VStr usage] ;; process_exit 1
   else ret tt) ;;
  command <- match nth_error argv 0 with
             | Some a => ret (toLowerCase table a)
             | None => throw undefined_error
             end ;;
  if str_eqb command (lit "start") then ret LaunchServer
  else if str_eqb command (lit "connect") then ret LaunchClient
  else
    console_error [VStr (lit "Unknown command: " ++ command)] ;;
    console_error [VStr usage] ;;
    process_exit 1.

(** What the process is after the top level has run. *)
Inductive Program :=
| HubProcess (p : Process Hub.State)
| PeerProcess (p : Process Peer.State)
| Stopped (tr : list Effect) (st : Status).

(** The script, from its first statement to the end of the top level:
    [startServer()] and [startClient()] are called at lines 137 and 139
    and run to their last statement. *)
Definition main (table : CaseTable) (argv : list jsstring) : Program :=
  let r := entry table argv tt in
  match outcome_of r with
  | Normal LaunchServer => HubProcess (Hub.launch (effects_of r))
  | Normal LaunchClient => PeerProcess (Peer.launch (effects_of r))
  | Exits c => Stopped (effects_of r) (Exited c)
  | Throws e => Stopped (effects_of r) (Uncaught e)
  end.

(** The exit code the operating system sees of it. *)
Definition program_exit_code (pr : Program) : option Z :=
  match pr with
  | HubProcess p => exit_code p
  | PeerProcess p => exit_code p
  | Stopped tr st => exit_code {| state := tt; trace := tr; status := st |}
  end.

(* ================================================================== *)
(** * Observations on states and traces *)
(* ================================================================== *)

(** The frames handed to socket [c], in order: the text, and whether the
    transport took it. *)
Definition sends_to (c : nat) (tr : list Effect) : list (jsstring * bool) :=
  flat_map (fun e => match e with
                     | WsSend c' text w => if Nat.eqb c' c then [(text, w)] else []
                     | _ => []
                     end) tr.

(** The payloads of those frames on the wire. *)
Definition payloads_to (c : nat) (tr : list Effect) : list Buffer :=
  List.map (fun f => Utf.text_payload (fst f)) (sends_to c tr).

(** Every frame handed to any socket. *)
Definition frames (tr : list Effect) : list (nat * jsstring) :=
  flat_map (fun e => match e with
                     | WsSend c text _ => [(c, text)]
                     | _ => []
                     end) tr.

(** The codes of the calls to [process.exit]. *)
Definition exit_calls (tr : list Effect) : list Z :=
  flat_map (fun e => match e with ProcessExit c => [c] | _ => [] end) tr.



Module HubObs.

(** [c] is a socket in state [OPEN]. *)
Definition isOpen (s : Hub.State) (c : nat) : bool :=
  match Hub.sockets s !! c with
  | Some w => ReadyState_eqb (readyState w) OPEN
  | None => false
  end.

(** The connection under [c] takes writes. *)
Definition isWritable (s : Hub.State) (c : nat) : bool :=
  match Hub.sockets s !! c with
  | Some w => writable w
  | None => false
  end.

(** What one round of the broadcast loop does for member [c]. *)
Definition relay_one (s : Hub.State) (msg : jsstring) (c : nat) : list Effect :=
  match Hub.sockets s !! c with
  | Some w =>
    if ReadyState_eqb (readyState w) OPEN then [WsSend c msg (writable w)] else []
  | None => []
  end.

Definition shutdown_reason : jsstring := lit "Server shutting down".

(** What one round of the shutdown loop does for member [c]. *)
Definition close_one (c : nat) (s : Hub.State) : Hub.State * list Effect :=
  match Hub.sockets s !! c with
  | Some w =>
    if ReadyState_eqb (readyState w) OPEN
    then (Hub.set_sockets (insert c (with_readyState CLOSING w)) s,
          [WsClose c 1001 shutdown_reason])
    else (s, [])
  | None => (s, [])
  end.

(** A loop whose rounds finish normally, as a fold. *)
Fixpoint sweep (g : nat -> Hub.State -> Hub.State * list Effect)
         (cs : list nat) (s : Hub.State) : Hub.State * list Effect :=
  match cs with
  | [] => (s, [])
  | c :: r =>
    let '(s1, e1) := g c s in
    let '(s2, e2) := sweep g r s1 in
    (s2, e1 ++ e2)
  end.

Definition shutting_down : Effect :=
  ConsoleLog [VStr (10 :: lit "Shutting down server...")].

Definition server_has_closed : Effect :=
  ConsoleLog [VStr (lit "Server has closed.")].

(** The state in which [closeAllConnections] leaves the hub. *)
Definition after_signal (s : Hub.State) : Hub.State :=
  let s1 := fst (sweep close_one (Hub.clients s) s) in
  {| Hub.sockets := Hub.sockets s1; Hub.clients := Hub.clients s1;
     Hub.nextId := Hub.nextId s1;
     Hub.server := match Hub.server s1 with
                   | Hub.SrvRunning => Hub.SrvClosing
                   | x => x
                   end;
     Hub.closeListeners := S (Hub.closeListeners s1) |}.

(** The effects of the handler of ['message'] on socket [c]. *)
Definition broadcast (s : Hub.State) (c : nat) (data : Buffer) : list Effect :=
  effects_of (Hub.handle (Hub.Message c data) s).

End HubObs.

Module PeerObs.

Definition isOpen (s : Peer.State) : bool :=
  ReadyState_eqb (readyState (Peer.socket s)) OPEN.

Definition not_connected : Effect :=
  ConsoleLog [VStr (lit "Connection is not open. Unable to send message.")].

Definition disconnecting : Effect :=
  ConsoleLog [VStr (10 :: lit "Disconnecting client...")].


End PeerObs.

(** [s] is [word] up to the case of its letters: each unit of [s] is the
    unit of [word] or, for a letter [a]-[z], its capital. *)
Fixpoint case_variant (word s : jsstring) : bool :=
  match word, s with
  | [], [] => true
  | w :: word', u :: s' =>
    ((u =? w) || ((97 <=? w) && (w <=? 122) && (u =? w - 32)))
    && case_variant word' s'
  | _, _ => false
  end.

(* ------------------------------------------------------------------ *)
(** ** Statements of the specification that are compared with the code *)

Module Stated.

(** Every open member is handed one frame whose payload is the payload
    received, byte for byte; the other members are handed nothing. *)
Definition relays_verbatim (s : Hub.State) (c : nat) (data : Buffer) (m : nat) : Prop :=
  payloads_to m (HubObs.broadcast s c data)
  = if HubObs.isOpen s m then [data] else [].




(** The peer prints ["> "] followed by the payload itself: a text whose
    bytes are the payload. *)
Definition shown_verbatim (s : Peer.State) (data : Buffer) : Prop :=
  exists text,
    Utf.text_payload text = data
    /\ effects_of (Peer.handle (Peer.Message data) s)
       = [ConsoleLog [VStr (lit "> " ++ text)]].

End Stated.

(* ------------------------------------------------------------------ *)
(** ** Sample runs *)

Module Sample.

(** The payload of the text message [hi]. *)
Definition hi : Buffer := Utf.text_payload (lit "hi").

(** A hub two clients have connected to. *)
Definition two_clients : Hub.State :=
  state (Hub.run [Hub.Connection; Hub.Connection] Hub.boot).

(** A hub with three clients, the second of which has lost its
    connection without the library knowing yet. *)
Definition one_broken : list Hub.Event :=
  [Hub.Connection; Hub.Connection; Hub.Connection; Hub.WriteFailure 1].

(** A peer whose connection is open. *)
Definition connected : Process Peer.State := Peer.run [Peer.Open] Peer.boot.

(** A peer whose hub has asked to close. *)
Definition closing : Process Peer.State :=
  Peer.run [Peer.Open; Peer.CloseFrame] Peer.boot.

Definition refused : JsError :=
  Error (lit "connect ECONNREFUSED 127.0.0.1:8080").


End Sample.

(* ------------------------------------------------------------------ *)
(** ** Observations on whole runs *)

(** The payloads of the messages that arrive in a run of the hub, in
    order. *)
Definition inbound (evs : list Hub.Event) : list Buffer :=
  flat_map (fun ev => match ev with
                      | Hub.Message _ data => [data]
                      | _ => []
                      end) evs.

(** A batch of messages (socket, payload), as events. *)
Definition messages (batch : list (nat * Buffer)) : list Hub.Event :=
  List.map (fun m => Hub.Message (fst m) (snd m)) batch.

(** The close handshakes started on socket [c]. *)
Definition handshakes (c : nat) (tr : list Effect) : list (Z * jsstring) :=
  flat_map (fun e => match e with
                     | WsClose c' code reason =>
                       if Nat.eqb c' c then [(code, reason)] else []
                     | _ => []
                     end) tr.

(** The events of the hub that come from its clients. *)
Definition from_client (ev : Hub.Event) : bool :=
  match ev with
  | Hub.Connection | Hub.Message _ _ | Hub.WriteFailure _ | Hub.CloseFrame _
  | Hub.SocketError _ _ | Hub.SocketClose _ => true
  | _ => false
  end.

(** The lines typed in a run of the peer, in order. *)
Definition typed (evs : list Peer.Event) : list jsstring :=
  flat_map (fun ev => match ev with
                      | Peer.Line line => [line]
                      | _ => []
                      end) evs.

(** The payloads of the messages that arrive in a run of the peer. *)
Definition received (evs : list Peer.Event) : list Buffer :=
  flat_map (fun ev => match ev with
                      | Peer.Message data => [data]
                      | _ => []
                      end) evs.

(** The texts shown on stdout behind the prompt ["> "]. *)
Definition displayed (tr : list Effect) : list jsstring :=
  flat_map (fun e => match e with
                     | ConsoleLog [VStr (62 :: 32 :: text)] => [text]
                     | _ => []
                     end) tr.

(** The events whose handlers call [process.exit] in the peer. *)
Definition ends_peer (ev : Peer.Event) : bool :=
  match ev with
  | Peer.Close _ _ | Peer.Signalled _ => true
  | _ => false
  end.

(** A string whose code units are in range and whose surrogates come in
    pairs: what [readline] hands over for UTF-8 input. *)
Fixpoint well_formed (s : jsstring) : bool :=
  match s with
  | [] => true
  | u :: r =>
    if Utf.in_range 0xD800 0xDBFF u then
      match r with
      | [] => false
      | v :: r' => Utf.in_range 0xDC00 0xDFFF v && well_formed r'
      end
    else
      Utf.in_range 0 0xFFFF u && negb (Utf.in_range 0xDC00 0xDFFF u)
      && well_formed r
  end.

(** Socket objects are numbered in the order they are made: every socket
    and every member of [wss.clients] is older than the next one. *)
Definition numbered (s : Hub.State) : Prop :=
  (forall x, is_Some (Hub.sockets s !! x) -> (x < Hub.nextId s)%nat)
  /\ (forall x, In x (Hub.clients s) -> (x < Hub.nextId s)%nat).

(** The invariants of a hub state: [wss.clients] holds no socket twice,
    and sockets are numbered. *)
Definition sound (s : Hub.State) : Prop :=
  List.NoDup (Hub.clients s) /\ numbered s.

(* ================================================================== *)
(** * Facts about the codecs *)
(* ================================================================== *)

Section Codecs.
Import Utf.

Lemma length_ind {A} (P : list A -> Prop) :
  (forall l, (forall l', (length l' < length l)%nat -> P l') -> P l) ->
  forall l, P l.
Proof.
  intros step l.
  assert (H : forall n l0, (length l0 < n)%nat -> P l0).
  { induction n as [|n IH]; intros l0 Hl; [lia|].
    apply step. intros l' Hl'. apply IH. lia. }
  apply (H (S (length l))). lia.
Qed.

Lemma in_range_true lo hi x : in_range lo hi x = true <-> lo <= x <= hi.
Proof. unfold in_range. rewrite andb_true_iff, !Z.leb_le. tauto. Qed.

Lemma in_range_false lo hi x : in_range lo hi x = false <-> ~ (lo <= x <= hi).
Proof. rewrite <- in_range_true. destruct (in_range lo hi x); intuition congruence. Qed.

Ltac ranges :=
  repeat match goal with
  | H : in_range _ _ _ = true |- _ => apply in_range_true in H
  | H : in_range _ _ _ = false |- _ => apply in_range_false in H
  end;
  unfold lo3, hi3, lo4, hi4 in *;
  repeat match goal with
  | H : context [ ?a =? ?b ] |- _ => destruct (Z.eqb_spec a b)
  | |- context [ ?a =? ?b ] => destruct (Z.eqb_spec a b)
  end.

Ltac ltb_cases :=
  repeat match goal with
  | |- context [ ?a <? ?b ] => destruct (Z.ltb_spec a b)
  end.

Ltac euclid := Z.div_mod_to_equations; lia.

(** Settle the next range test of the goal, which is known to be [b]. *)
Ltac in_range_is b :=
  match goal with
  | |- context [ in_range ?lo ?hi ?x ] =>
    let E := fresh "E" in
    destruct (in_range lo hi x) eqn:E;
    [ match b with
      | true => idtac
      | false => exfalso; ranges; euclid
      end
    | match b with
      | false => idtac
      | true => exfalso; ranges; apply E; euclid
      end ]
  end.

Ltac scan_cases :=
  repeat match goal with
  | |- context [ in_range ?a ?b ?x ] => destruct (in_range a b x) eqn:?
  | |- context [ match ?l with [] => _ | _ :: _ => _ end ] => destruct l
  end.

(** *** Encoding the code point of a well-formed sequence gives the
    sequence back *)

Lemma utf8_of_cp_1 b0 : in_range 0x00 0x7F b0 = true -> utf8_of_cp b0 = [b0].
Proof. intros H. ranges. unfold utf8_of_cp. ltb_cases; try lia. reflexivity. Qed.

Lemma utf8_of_cp_2 b0 b1 :
  in_range 0xC2 0xDF b0 = true -> in_range 0x80 0xBF b1 = true ->
  utf8_of_cp ((b0 - 0xC0) * 64 + (b1 - 0x80)) = [b0; b1].
Proof.
  intros H0 H1. ranges. unfold utf8_of_cp. ltb_cases; try lia.
  repeat f_equal; euclid.
Qed.

Lemma utf8_of_cp_3 b0 b1 b2 :
  in_range 0xE0 0xEF b0 = true -> in_range (lo3 b0) (hi3 b0) b1 = true ->
  in_range 0x80 0xBF b2 = true ->
  utf8_of_cp ((b0 - 0xE0) * 4096 + (b1 - 0x80) * 64 + (b2 - 0x80)) = [b0; b1; b2].
Proof.
  intros H0 H1 H2. ranges; unfold utf8_of_cp; ltb_cases; try lia;
  repeat f_equal; euclid.
Qed.

Lemma utf8_of_cp_4 b0 b1 b2 b3 :
  in_range 0xF0 0xF4 b0 = true -> in_range (lo4 b0) (hi4 b0) b1 = true ->
  in_range 0x80 0xBF b2 = true -> in_range 0x80 0xBF b3 = true ->
  utf8_of_cp ((b0 - 0xF0) * 262144 + (b1 - 0x80) * 4096
              + (b2 - 0x80) * 64 + (b3 - 0x80)) = [b0; b1; b2; b3].
Proof.
  intros H0 H1 H2 H3. ranges; unfold utf8_of_cp; ltb_cases; try lia;
  repeat f_equal; euclid.
Qed.

(** Decoding a well-formed buffer and encoding the code points again is
    the identity. *)
Lemma utf8_decode_encode data :
  is_utf8 data = true -> flat_map utf8_of_cp (utf8_decode data) = data.
Proof.
  induction data as [data IH] using length_ind.
  destruct data as [|b0 r0]; [reflexivity|].
  unfold is_utf8, utf8_decode in *. simpl scan.
  scan_cases; simpl; try discriminate; intros Hv.
  - rewrite utf8_of_cp_1 by assumption. simpl. f_equal.
    apply IH; [simpl; lia | exact Hv].
  - rewrite utf8_of_cp_2 by assumption. simpl. do 2 f_equal.
    apply IH; [simpl; lia | exact Hv].
  - rewrite utf8_of_cp_3 by assumption. simpl. do 3 f_equal.
    apply IH; [simpl; lia | exact Hv].
  - rewrite utf8_of_cp_4 by assumption. simpl. do 4 f_equal.
    apply IH; [simpl; lia | exact Hv].
Qed.

Lemma scalar_replacement : scalar REPLACEMENT.
Proof. unfold scalar, REPLACEMENT. lia. Qed.

(** Whatever the bytes, the decoder yields scalar values only. *)
Lemma utf8_decode_scalar data : Forall scalar (utf8_decode data).
Proof.
  induction data as [data IH] using length_ind.
  destruct data as [|b0 r0]; [constructor|].
  unfold utf8_decode in *. simpl scan.
  scan_cases; cbn -[scan];
    repeat match goal with
    | |- Forall _ (_ :: _) => constructor
    | |- Forall _ [] => constructor
    | |- Forall _ (List.map _ (scan _)) => apply IH; simpl; lia
    | |- scalar REPLACEMENT => apply scalar_replacement
    end;
    ranges; unfold scalar; lia.
Qed.

Lemma utf16_decode_cp c rest :
  scalar c -> utf16_decode (utf16_of_cp c ++ rest) = c :: utf16_decode rest.
Proof.
  intros [Hr Hs]. unfold utf16_of_cp.
  destruct (Z.ltb_spec c 0x10000); cbn [app utf16_decode].
  - in_range_is false. in_range_is false. reflexivity.
  - in_range_is true. in_range_is true. f_equal. euclid.
Qed.

Lemma utf16_roundtrip cps :
  Forall scalar cps -> utf16_decode (flat_map utf16_of_cp cps) = cps.
Proof.
  induction 1 as [|c cps Hc _ IH]; [reflexivity|].
  cbn [flat_map]. rewrite utf16_decode_cp by assumption. now rewrite IH.
Qed.

(** The decoder reads the UTF-8 form of a scalar value back as that
    value. *)
Lemma scan_utf8_of_cp c rest :
  scalar c -> scan (utf8_of_cp c ++ rest) = Some c :: scan rest.
Proof.
  intros [Hr Hs]. unfold utf8_of_cp. ltb_cases; cbn [app scan].
  - in_range_is true. reflexivity.
  - in_range_is false. in_range_is true. in_range_is true.
    do 2 f_equal. euclid.
  - in_range_is false. in_range_is false. in_range_is true.
    in_range_is true. in_range_is true.
    do 2 f_equal. euclid.
  - in_range_is false. in_range_is false. in_range_is false. in_range_is true.
    in_range_is true. in_range_is true. in_range_is true.
    do 2 f_equal. euclid.
Qed.

Lemma is_utf8_encoded cps :
  Forall scalar cps -> is_utf8 (flat_map utf8_of_cp cps) = true.
Proof.
  induction 1 as [|c cps Hc _ IH]; [reflexivity|].
  cbn [flat_map]. unfold is_utf8 in *. rewrite scan_utf8_of_cp by assumption.
  exact IH.
Qed.

(** The frame written for a string that [toString] produced carries the
    UTF-8 form of the decoded code points. *)
Lemma text_payload_toString data :
  text_payload (toString data) = flat_map utf8_of_cp (utf8_decode data).
Proof.
  unfold text_payload, toString.
  now rewrite utf16_roundtrip by apply utf8_decode_scalar.
Qed.

(** A well-formed payload survives [toString] followed by [send]. *)
Lemma relay_well_formed data :
  is_utf8 data = true -> text_payload (toString data) = data.
Proof. intros H. rewrite text_payload_toString. now apply utf8_decode_encode. Qed.

(** Whatever came in, what goes out is well-formed. *)
Lemma relayed_is_utf8 data : is_utf8 (text_payload (toString data)) = true.
Proof. rewrite text_payload_toString. apply is_utf8_encoded, utf8_decode_scalar. Qed.

(** [toString] reads its own output back unchanged. *)
Lemma toString_relayed data :
  toString (text_payload (toString data)) = toString data.
Proof.
  rewrite text_payload_toString. unfold toString, utf8_decode. f_equal.
  pose proof (utf8_decode_scalar data) as Hs. unfold utf8_decode in Hs.
  induction Hs as [|c cps Hc _ IH]; [reflexivity|].
  cbn [flat_map]. rewrite scan_utf8_of_cp by assumption.
  cbn [List.map default]. now rewrite IH.
Qed.

End Codecs.

Example toString_hello :
  Utf.toString [104; 101; 108; 108; 111] = lit "hello".
Proof. reflexivity. Qed.

Example toString_two_three_four_bytes :
  Utf.toString [0xC3; 0xA9; 0xE2; 0x82; 0xAC; 0xF0; 0x9F; 0x98; 0x80]
  = [0xE9; 0x20AC; 0xD83D; 0xDE00].
Proof. reflexivity. Qed.

Example is_utf8_rejects :
  Utf.is_utf8 [0xC0; 0x80] = false
  /\ Utf.is_utf8 [0xED; 0xA0; 0x80] = false
  /\ Utf.is_utf8 [0xF4; 0x90; 0x80; 0x80] = false
  /\ Utf.is_utf8 [0xE2; 0x82] = false
  /\ Utf.is_utf8 [0xFF] = false
  /\ Utf.is_utf8 [0xE2; 0x82; 0xAC] = true.
Proof. repeat split; reflexivity. Qed.

Example toLowerCase_mixed table : toLowerCase table (lit "StArT") = lit "start".
Proof. reflexivity. Qed.

(* ================================================================== *)
(** * Facts about the event loop *)
(* ================================================================== *)

Ltac js :=
  unfold bind, gets, modify, emit, ret, console_log, console_error,
         process_exit, throw in *.

Lemma dispatch_running {S} (h : Js S unit) (p : Process S) :
  status p = Running ->
  dispatch h p = {| state := state_of (h (state p));
                    trace := trace p ++ effects_of (h (state p));
                    status := finish (outcome_of (h (state p))) |}.
Proof. intros H. unfold dispatch. now rewrite H. Qed.

Lemma dispatch_stopped {S} (h : Js S unit) (p : Process S) :
  status p <> Running -> dispatch h p = p.
Proof. intros H. unfold dispatch. destruct (status p); congruence. Qed.

Section LoopFacts.
Context {S E : Type} (handle : E -> Js S unit).

Lemma loop_step_running ev p :
  status p = Running ->
  loop_step handle ev p
  = {| state := state_of (handle ev (state p));
       trace := trace p ++ effects_of (handle ev (state p));
       status := finish (outcome_of (handle ev (state p))) |}.
Proof. apply dispatch_running. Qed.

Lemma loop_step_stopped ev p : status p <> Running -> loop_step handle ev p = p.
Proof. apply dispatch_stopped. Qed.

(** A process that has ended handles no further event. *)
Lemma loop_run_stopped evs p : status p <> Running -> loop_run handle evs p = p.
Proof.
  intros H. induction evs as [|ev evs IH]; [reflexivity|].
  cbn [loop_run fold_left]. rewrite loop_step_stopped by assumption. exact IH.
Qed.

Lemma loop_run_cons ev evs p :
  loop_run handle (ev :: evs) p = loop_run handle evs (loop_step handle ev p).
Proof. reflexivity. Qed.

Lemma loop_run_snoc evs ev p :
  loop_run handle (evs ++ [ev]) p = loop_step handle ev (loop_run handle evs p).
Proof. unfold loop_run. now rewrite fold_left_app. Qed.

(** What a run adds to the trace does not depend on what the trace held
    before. *)
Lemma loop_run_prefix evs t1 s t2 st :
  loop_run handle evs {| state := s; trace := t1 ++ t2; status := st |}
  = let q := loop_run handle evs {| state := s; trace := t2; status := st |} in
    {| state := state q; trace := t1 ++ trace q; status := status q |}.
Proof.
  revert s t2 st. induction evs as [|ev evs IH]; intros s t2 st; [reflexivity|].
  rewrite !loop_run_cons. unfold loop_step, dispatch. cbn [status state trace].
  destruct st.
  - rewrite <- app_assoc. apply IH.
  - apply IH.
  - apply IH.
Qed.

(** A property of the state that every handler keeps holds all along a
    run. *)
Lemma loop_run_invariant (Inv : S -> Prop) evs p :
  (forall ev s, Inv s -> Inv (state_of (handle ev s))) ->
  Inv (state p) -> Inv (state (loop_run handle evs p)).
Proof.
  intros Hstep. revert p. induction evs as [|ev evs IH]; intros p H; [exact H|].
  rewrite loop_run_cons. apply IH. unfold loop_step, dispatch.
  destruct (status p); auto. cbn [state]. now apply Hstep.
Qed.

End LoopFacts.

Lemma forEach_pure {S X} (f : X -> Js S unit) (g : X -> list Effect) (s : S) xs :
  (forall x, f x s = (Normal tt, s, g x)) ->
  forEach xs f s = (Normal tt, s, flat_map g xs).
Proof.
  intros Hf. induction xs as [|x xs IH]; [reflexivity|].
  cbn [forEach flat_map]. unfold bind. rewrite Hf, IH. reflexivity.
Qed.

(** An exception thrown in one round ends the loop. *)
Lemma forEach_throws {S X} (f : X -> Js S unit) x xs s e s1 e1 :
  f x s = (Throws e, s1, e1) -> forEach (x :: xs) f s = (Throws e, s1, e1).
Proof. intros H. cbn [forEach]. unfold bind. now rewrite H. Qed.

Lemma sends_to_app c t1 t2 : sends_to c (t1 ++ t2) = sends_to c t1 ++ sends_to c t2.
Proof. apply flat_map_app. Qed.

Lemma frames_app t1 t2 : frames (t1 ++ t2) = frames t1 ++ frames t2.
Proof. apply flat_map_app. Qed.

Lemma exit_calls_app t1 t2 : exit_calls (t1 ++ t2) = exit_calls t1 ++ exit_calls t2.
Proof. apply flat_map_app. Qed.

(* ================================================================== *)
(** * The hub, handler by handler *)
(* ================================================================== *)

Section HubFacts.
Import HubObs.

Lemma forEach_sweep (f : nat -> Js Hub.State unit) g cs :
  (forall c s, f c s = (Normal tt, fst (g c s), snd (g c s))) ->
  forall s, forEach cs f s = (Normal tt, fst (sweep g cs s), snd (sweep g cs s)).
Proof.
  intros Hf. induction cs as [|c cs IH]; intros s; [reflexivity|].
  cbn [forEach sweep]. unfold bind. rewrite Hf.
  destruct (g c s) as [s1 e1]. cbn [fst snd]. rewrite IH.
  destruct (sweep g cs s1) as [s2 e2]. reflexivity.
Qed.

(** One round of the broadcast loop. *)
Lemma relay_callback s msg c :
  (rs <- Hub.readyStateOf c ;;
   if ReadyState_eqb rs OPEN then Hub.send c msg else ret tt) s
  = (Normal tt, s, relay_one s msg c).
Proof.
  unfold relay_one, Hub.readyStateOf, Hub.send, WebSocket_send. js.
  destruct (Hub.sockets s !! c) as [w|] eqn:E; cbn.
  - destruct (readyState w) eqn:R; cbn; rewrite ?E, ?R; reflexivity.
  - reflexivity.
Qed.

Lemma onMessage_run data s :
  Hub.onMessage data s
  = (Normal tt, s,
     ConsoleLog [VStr (lit "Received: " ++ Utf.toString data)]
       :: flat_map (relay_one s (Utf.toString data)) (Hub.clients s)).
Proof.
  unfold Hub.onMessage. js. cbn.
  rewrite (forEach_pure _ (relay_one s (Utf.toString data))) by apply relay_callback.
  reflexivity.
Qed.

(** One round of the shutdown loop. *)
Lemma close_callback c s :
  (rs <- Hub.readyStateOf c ;;
   if ReadyState_eqb rs OPEN
   then Hub.close c 1001 (lit "Server shutting down")
   else ret tt) s
  = (Normal tt, fst (close_one c s), snd (close_one c s)).
Proof.
  unfold close_one, Hub.readyStateOf, Hub.close, WebSocket_close. js.
  destruct (Hub.sockets s !! c) as [w|] eqn:E; cbn.
  - destruct (readyState w) eqn:R; cbn; rewrite ?E, ?R; reflexivity.
  - reflexivity.
Qed.

Lemma closeAllConnections_run s :
  Hub.closeAllConnections s
  = (Normal tt, after_signal s,
     shutting_down :: snd (sweep close_one (Hub.clients s) s) ++ [WssClose]).
Proof.
  unfold Hub.closeAllConnections, Hub.wss_close, after_signal. js. cbn.
  rewrite (forEach_sweep _ close_one) by apply close_callback.
  destruct (sweep close_one (Hub.clients s) s) as [s1 e1]. reflexivity.
Qed.

(** The shutdown loop touches the sockets only. *)
Lemma sweep_close_frame cs s :
  let s1 := fst (sweep close_one cs s) in
  Hub.clients s1 = Hub.clients s /\ Hub.nextId s1 = Hub.nextId s
  /\ Hub.server s1 = Hub.server s /\ Hub.closeListeners s1 = Hub.closeListeners s.
Proof.
  revert s. induction cs as [|c cs IH]; intros s; [cbn; auto|].
  cbn [sweep]. destruct (close_one c s) as [s0 e0] eqn:E0.
  specialize (IH s0). destruct (sweep close_one cs s0) as [s2 e2]. cbn [fst] in *.
  assert (Hub.clients s0 = Hub.clients s /\ Hub.nextId s0 = Hub.nextId s
          /\ Hub.server s0 = Hub.server s
          /\ Hub.closeListeners s0 = Hub.closeListeners s) as H0.
  { unfold close_one in E0. destruct (Hub.sockets s !! c) as [w|].
    - destruct (ReadyState_eqb (readyState w) OPEN); inversion E0; subst; cbn; auto.
    - inversion E0; subst; auto. }
  intuition congruence.
Qed.

Lemma isOpen_close_one c s x :
  isOpen (fst (close_one c s)) x = isOpen s x && negb (Nat.eqb x c).
Proof.
  unfold close_one, isOpen.
  destruct (Hub.sockets s !! c) as [w|] eqn:E;
    [destruct (ReadyState_eqb (readyState w) OPEN) eqn:R|];
    cbn [fst Hub.set_sockets Hub.sockets];
    (destruct (Nat.eqb_spec x c) as [->|Hne];
     [| rewrite ?lookup_insert_ne by congruence; now rewrite andb_true_r]).
  - rewrite lookup_insert_eq. cbn. now rewrite andb_false_r.
  - rewrite E, R. reflexivity.
  - rewrite E. reflexivity.
Qed.

(** After the loop no member it visited is open. *)
Lemma isOpen_sweep cs s x :
  isOpen (fst (sweep close_one cs s)) x
  = isOpen s x && negb (existsb (Nat.eqb x) cs).
Proof.
  revert s. induction cs as [|c cs IH]; intros s.
  - cbn. now rewrite andb_true_r.
  - cbn [sweep existsb]. pose proof (isOpen_close_one c s x) as H1.
    destruct (close_one c s) as [s0 e0]. specialize (IH s0).
    destruct (sweep close_one cs s0) as [s2 e2]. cbn [fst] in *.
    rewrite IH, H1. rewrite negb_orb. now rewrite andb_assoc.
Qed.

Lemma close_one_effects c s :
  snd (close_one c s) = if isOpen s c then [WsClose c 1001 shutdown_reason] else [].
Proof.
  unfold close_one, isOpen. destruct (Hub.sockets s !! c) as [w|]; [|reflexivity].
  destruct (ReadyState_eqb (readyState w) OPEN); reflexivity.
Qed.

(** The loop starts one close handshake for each open member, in the
    order of the set. *)
Lemma sweep_effects cs s :
  List.NoDup cs ->
  snd (sweep close_one cs s)
  = List.map (fun c => WsClose c 1001 shutdown_reason) (List.filter (isOpen s) cs).
Proof.
  intros Hnd. revert s. induction Hnd as [|c cs Hc Hnd IH]; intros s; [reflexivity|].
  cbn [sweep List.filter].
  pose proof (close_one_effects c s) as H1.
  pose proof (fun x => isOpen_close_one c s x) as H2.
  destruct (close_one c s) as [s0 e0]. specialize (IH s0).
  destruct (sweep close_one cs s0) as [s2 e2]. cbn [fst snd] in *.
  subst e0. rewrite IH.
  assert (List.filter (isOpen s0) cs = List.filter (isOpen s) cs) as ->.
  { apply filter_ext_in. intros x Hx. rewrite H2.
    destruct (Nat.eqb_spec x c) as [->|]; [contradiction|]. now rewrite andb_true_r. }
  destruct (isOpen s c); reflexivity.
Qed.


Lemma emitOnce_serverClosed n s :
  emitOnce n Hub.serverClosed s
  = match n with
    | O => (Normal tt, s, [])
    | S _ => (Exits 0, s, [server_has_closed; ProcessExit 0])
    end.
Proof. destruct n; reflexivity. Qed.

Lemma handle_Message c data s :
  Hub.handle (Hub.Message c data) s
  = match Hub.sockets s !! c with
    | Some _ => Hub.onMessage data s
    | None => (Normal tt, s, [])
    end.
Proof.
  cbn [Hub.handle]. unfold Hub.on. js.
  destruct (Hub.sockets s !! c); [|reflexivity].
  destruct (Hub.onMessage data s) as [[o s'] e]. reflexivity.
Qed.

Lemma handle_Signalled sig s :
  Hub.handle (Hub.Signalled sig) s
  = (Normal tt, after_signal s,
     shutting_down :: snd (sweep close_one (Hub.clients s) s) ++ [WssClose]).
Proof. destruct sig; apply closeAllConnections_run. Qed.

Lemma handle_ListenerClosed s :
  Hub.handle Hub.ListenerClosed s
  = let s' := {| Hub.sockets := Hub.sockets s; Hub.clients := Hub.clients s;
                 Hub.nextId := Hub.nextId s; Hub.server := Hub.SrvClosed;
                 Hub.closeListeners := 0 |} in
    match Hub.closeListeners s with
    | O => (Normal tt, s', [])
    | S _ => (Exits 0, s', [server_has_closed; ProcessExit 0])
    end.
Proof.
  cbn [Hub.handle]. js. rewrite emitOnce_serverClosed.
  destruct (Hub.closeListeners s); reflexivity.
Qed.


Lemma handle_clients ev s :
  Hub.clients (state_of (Hub.handle ev s))
  = match ev with
    | Hub.Connection =>
      match Hub.server s with
      | Hub.SrvRunning =>
        if existsb (Nat.eqb (Hub.nextId s)) (Hub.clients s)
        then Hub.clients s else Hub.clients s ++ [Hub.nextId s]
      | _ => Hub.clients s
      end
    | Hub.SocketClose c =>
      match Hub.sockets s !! c with
      | Some _ => List.filter (fun x => negb (Nat.eqb x c)) (Hub.clients s)
      | None => Hub.clients s
      end
    | _ => Hub.clients s
    end.
Proof.
  destruct ev; try reflexivity.
  - cbn [Hub.handle]. unfold Hub.accept, Hub.onConnection. js.
    destruct (Hub.server s); reflexivity.
  - rewrite handle_Message. destruct (Hub.sockets s !! c); [|reflexivity].
    now rewrite onMessage_run.
  - cbn [Hub.handle]. unfold Hub.on, Hub.update, Hub.onError. js.
    destruct (Hub.sockets s !! c); reflexivity.
  - cbn [Hub.handle]. unfold Hub.on, Hub.update, Hub.onClose. js.
    destruct (Hub.sockets s !! c); reflexivity.
  - rewrite handle_Signalled. unfold state_of, after_signal. cbn [fst snd Hub.clients].
    apply sweep_close_frame.
  - rewrite handle_ListenerClosed. destruct (Hub.closeListeners s); reflexivity.
Qed.

(** [wss.clients] is a set: no socket is in it twice. *)
Lemma handle_NoDup ev s :
  List.NoDup (Hub.clients s) ->
  List.NoDup (Hub.clients (state_of (Hub.handle ev s))).
Proof.
  intros Hnd. rewrite handle_clients. destruct ev; auto.
  - destruct (Hub.server s); auto.
    destruct (existsb _ _) eqn:E; auto.
    apply List.NoDup_app; auto.
    + constructor; [intros []|constructor].
    + intros x Hx [<-|[]].
      assert (existsb (Nat.eqb (Hub.nextId s)) (Hub.clients s) = true); [|congruence].
      apply existsb_exists. exists (Hub.nextId s). split; [exact Hx|apply Nat.eqb_refl].
  - destruct (Hub.sockets s !! c); auto. now apply List.NoDup_filter.
Qed.


Lemma step_running ev p :
  status p = Running ->
  Hub.step ev p = {| state := state_of (Hub.handle ev (state p));
                     trace := trace p ++ effects_of (Hub.handle ev (state p));
                     status := finish (outcome_of (Hub.handle ev (state p))) |}.
Proof. apply dispatch_running. Qed.

Lemma boot_NoDup evs : List.NoDup (Hub.clients (state (Hub.run evs Hub.boot))).
Proof.
  apply (loop_run_invariant Hub.handle (fun s => List.NoDup (Hub.clients s))).
  - intros ev s. apply handle_NoDup.
  - constructor.
Qed.


End HubFacts.

(* ================================================================== *)
(** * The hub: broadcast *)
(* ================================================================== *)

Section HubBroadcast.
Import HubObs.

Lemma sends_to_relay_one s msg c m :
  sends_to m (relay_one s msg c)
  = if Nat.eqb c m && isOpen s m then [(msg, isWritable s m)] else [].
Proof.
  unfold relay_one, isOpen, isWritable.
  destruct (Nat.eqb_spec c m) as [->|Hne]; cbn [andb].
  - destruct (Hub.sockets s !! m) as [w|]; [|reflexivity].
    destruct (ReadyState_eqb (readyState w) OPEN); [|reflexivity].
    cbn. now rewrite Nat.eqb_refl.
  - destruct (Hub.sockets s !! c) as [w|]; [|reflexivity].
    destruct (ReadyState_eqb (readyState w) OPEN); [|reflexivity].
    cbn. destruct (Nat.eqb_spec c m); [contradiction|reflexivity].
Qed.

(** The loop hands a member of the set its frame once, when it is open. *)
Lemma sends_to_relay s msg cs m :
  List.NoDup cs -> In m cs ->
  sends_to m (flat_map (relay_one s msg) cs)
  = if isOpen s m then [(msg, isWritable s m)] else [].
Proof.
  intros Hnd. induction Hnd as [|c cs Hc Hnd IH]; intros Hin; [destruct Hin|].
  cbn [flat_map]. rewrite sends_to_app, sends_to_relay_one.
  destruct Hin as [->|Hin].
  - rewrite Nat.eqb_refl. cbn [andb].
    assert (sends_to m (flat_map (relay_one s msg) cs) = []) as ->.
    { clear IH Hnd. induction cs as [|x cs IH]; [reflexivity|].
      cbn [flat_map]. rewrite sends_to_app, sends_to_relay_one.
      destruct (Nat.eqb_spec x m) as [->|_]; [exfalso; apply Hc; now left|].
      cbn [andb app]. apply IH. intros H. apply Hc. now right. }
    destruct (isOpen s m); reflexivity.
  - destruct (Nat.eqb_spec c m) as [->|_]; [contradiction|].
    cbn [andb app]. now apply IH.
Qed.

Lemma broadcast_known s c data :
  is_Some (Hub.sockets s !! c) ->
  Hub.handle (Hub.Message c data) s
  = (Normal tt, s,
     ConsoleLog [VStr (lit "Received: " ++ Utf.toString data)]
       :: flat_map (relay_one s (Utf.toString data)) (Hub.clients s)).
Proof.
  intros [w Hw]. rewrite handle_Message, Hw. apply onMessage_run.
Qed.

Lemma broadcast_sends s c data m :
  is_Some (Hub.sockets s !! c) -> List.NoDup (Hub.clients s) -> In m (Hub.clients s) ->
  sends_to m (broadcast s c data)
  = if isOpen s m then [(Utf.toString data, isWritable s m)] else [].
Proof.
  intros Hc Hnd Hm. unfold broadcast. rewrite broadcast_known by assumption.
  cbn [effects_of snd]. change (?x :: ?l) with ([x] ++ l).
  rewrite sends_to_app. cbn [sends_to flat_map app]. now apply sends_to_relay.
Qed.

End HubBroadcast.

(** C1 (as the code has it). On a message from a connected socket the hub
    hands every open member of [wss.clients], the sender included, exactly
    one text frame, and a member that is not open none.  The frame carries
    the text [data.toString()]: its payload is the UTF-8 form of the decoded
    message, which is the payload received, byte for byte, whenever that
    payload is well-formed UTF-8. *)
Theorem hub_broadcast_one_copy_each
    (evs : list Hub.Event) (c : nat) (data : Buffer) (m : nat) :
  let s := state (Hub.run evs Hub.boot) in
  is_Some (Hub.sockets s !! c) ->
  In m (Hub.clients s) ->
  List.map fst (sends_to m (HubObs.broadcast s c data))
    = (if HubObs.isOpen s m then [Utf.toString data] else [])
  /\ payloads_to m (HubObs.broadcast s c data)
     = (if HubObs.isOpen s m then [Utf.text_payload (Utf.toString data)] else [])
  /\ (Utf.is_utf8 data = true -> Stated.relays_verbatim s c data m).
Proof.
  intros s Hc Hm.
  pose proof (broadcast_sends s c data m Hc (boot_NoDup evs) Hm) as H.
  unfold Stated.relays_verbatim, payloads_to. rewrite H.
  repeat split.
  - destruct (HubObs.isOpen s m); reflexivity.
  - destruct (HubObs.isOpen s m); reflexivity.
  - intros Hu. destruct (HubObs.isOpen s m); [|reflexivity].
    cbn [List.map fst]. now rewrite relay_well_formed.
Qed.

Lemma hub_broadcast_one_copy_each_witness :
  is_Some (Hub.sockets Sample.two_clients !! 0%nat)
  /\ In 1%nat (Hub.clients Sample.two_clients)
  /\ Utf.is_utf8 Sample.hi = true
  /\ List.map fst (sends_to 1 (HubObs.broadcast Sample.two_clients 0 Sample.hi))
     = [lit "hi"]
  /\ Stated.relays_verbatim Sample.two_clients 0 Sample.hi 1.
Proof.
  assert (H0 : is_Some (Hub.sockets Sample.two_clients !! 0%nat))
    by (eexists; reflexivity).
  assert (H1 : In 1%nat (Hub.clients Sample.two_clients))
    by (right; left; reflexivity).
  assert (H2 : Utf.is_utf8 Sample.hi = true) by reflexivity.
  pose proof (hub_broadcast_one_copy_each
                [Hub.Connection; Hub.Connection] 0 Sample.hi 1 H0 H1) as (Ha & _ & Hb).
  split; [exact H0|]. split; [exact H1|]. split; [exact H2|].
  split; [exact Ha | exact (Hb H2)].
Defined.

(** C1 (as the specification states it) fails: a binary message that is
    not well-formed UTF-8 is relayed as U+FFFD. *)
Lemma hub_broadcast_not_verbatim :
  ~ Stated.relays_verbatim (state (Hub.run [Hub.Connection] Hub.boot)) 0 [0xFF] 0.
Proof. unfold Stated.relays_verbatim. vm_compute. discriminate. Qed.

(** C6. A member [f] whose connection no longer takes writes does not stop
    the broadcast: the handler finishes normally, nothing is thrown, the
    frame of [f] is the only one lost to that failure, and every open
    member [m] is handed its one frame, wherever it stands in the set. *)
Theorem hub_broadcast_survives_send_failure
    (evs : list Hub.Event) (c : nat) (data : Buffer) (f m : nat) :
  let s := state (Hub.run evs Hub.boot) in
  is_Some (Hub.sockets s !! c) ->
  In f (Hub.clients s) -> HubObs.isOpen s f = true -> HubObs.isWritable s f = false ->
  In m (Hub.clients s) -> HubObs.isOpen s m = true ->
  outcome_of (Hub.handle (Hub.Message c data) s) = Normal tt
  /\ state_of (Hub.handle (Hub.Message c data) s) = s
  /\ sends_to f (HubObs.broadcast s c data) = [(Utf.toString data, false)]
  /\ sends_to m (HubObs.broadcast s c data) = [(Utf.toString data, HubObs.isWritable s m)].
Proof.
  intros s Hc Hf Hfo Hfw Hm Hmo.
  pose proof (boot_NoDup evs) as Hnd. fold s in Hnd.
  rewrite !broadcast_sends by assumption.
  rewrite broadcast_known by assumption.
  rewrite Hfo, Hfw, Hmo. repeat split.
Qed.

Lemma hub_broadcast_survives_send_failure_witness :
  is_Some (Hub.sockets (state (Hub.run Sample.one_broken Hub.boot)) !! 0%nat)
  /\ In 1%nat (Hub.clients (state (Hub.run Sample.one_broken Hub.boot)))
  /\ HubObs.isOpen (state (Hub.run Sample.one_broken Hub.boot)) 1 = true
  /\ HubObs.isWritable (state (Hub.run Sample.one_broken Hub.boot)) 1 = false
  /\ In 2%nat (Hub.clients (state (Hub.run Sample.one_broken Hub.boot)))
  /\ HubObs.isOpen (state (Hub.run Sample.one_broken Hub.boot)) 2 = true
  /\ outcome_of (Hub.handle (Hub.Message 0 Sample.hi)
                   (state (Hub.run Sample.one_broken Hub.boot))) = Normal tt
  /\ sends_to 1 (HubObs.broadcast (state (Hub.run Sample.one_broken Hub.boot)) 0 Sample.hi)
     = [(lit "hi", false)]
  /\ sends_to 2 (HubObs.broadcast (state (Hub.run Sample.one_broken Hub.boot)) 0 Sample.hi)
     = [(lit "hi", true)].
Proof.
  assert (H0 : is_Some (Hub.sockets (state (Hub.run Sample.one_broken Hub.boot)) !! 0%nat))
    by (eexists; reflexivity).
  assert (H1 : In 1%nat (Hub.clients (state (Hub.run Sample.one_broken Hub.boot))))
    by (right; left; reflexivity).
  assert (H2 : HubObs.isOpen (state (Hub.run Sample.one_broken Hub.boot)) 1 = true)
    by reflexivity.
  assert (H3 : HubObs.isWritable (state (Hub.run Sample.one_broken Hub.boot)) 1 = false)
    by reflexivity.
  assert (H4 : In 2%nat (Hub.clients (state (Hub.run Sample.one_broken Hub.boot))))
    by (right; right; left; reflexivity).
  assert (H5 : HubObs.isOpen (state (Hub.run Sample.one_broken Hub.boot)) 2 = true)
    by reflexivity.
  pose proof (hub_broadcast_survives_send_failure
                Sample.one_broken 0 Sample.hi 1 2 H0 H1 H2 H3 H4 H5)
    as (Ha & _ & Hb & Hc).
  split; [exact H0|]. split; [exact H1|]. split; [exact H2|]. split; [exact H3|].
  split; [exact H4|]. split; [exact H5|].
  split; [exact Ha|]. split; [exact Hb | exact Hc].
Defined.

(* ================================================================== *)
(** * The hub: shutdown *)
(* ================================================================== *)

Section HubShutdown.
Import HubObs.



(** Once the handler has run, no member is open any more. *)
Lemma after_signal_none_open s c :
  In c (Hub.clients s) -> isOpen (after_signal s) c = false.
Proof.
  intros Hin.
  change (isOpen (after_signal s) c)
    with (isOpen (fst (sweep close_one (Hub.clients s) s)) c).
  rewrite isOpen_sweep.
  assert (existsb (Nat.eqb c) (Hub.clients s) = true) as ->.
  { apply existsb_exists. exists c. split; [exact Hin|apply Nat.eqb_refl]. }
  now rewrite andb_false_r.
Qed.




End HubShutdown.






(* ================================================================== *)
(** * The peer *)
(* ================================================================== *)

Section PeerFacts.
Import PeerObs.

Lemma peer_step_running ev p :
  status p = Running ->
  Peer.step ev p = {| state := state_of (Peer.handle ev (state p));
                      trace := trace p ++ effects_of (Peer.handle ev (state p));
                      status := finish (outcome_of (Peer.handle ev (state p))) |}.
Proof. apply dispatch_running. Qed.


Lemma onLine_run line s :
  Peer.onLine line s
  = (Normal tt, s,
     [if isOpen s
      then WsSend Peer.ws line (writable (Peer.socket s))
      else not_connected]).
Proof.
  unfold Peer.onLine, Peer.send, WebSocket_send, isOpen. js.
  destruct (readyState (Peer.socket s)) eqn:R; cbn; rewrite ?R; reflexivity.
Qed.

Lemma shutdownClient_run s :
  Peer.shutdownClient s
  = (Exits 0,
     (if isOpen s then Peer.set_socket (with_readyState CLOSING) s else s),
     disconnecting
       :: (if isOpen s then [WsClose Peer.ws 1000 (lit "Client exit")] else [])
       ++ [ProcessExit 0]).
Proof.
  unfold Peer.shutdownClient, Peer.close, WebSocket_close, isOpen. js.
  destruct s as [[rs w] r]. destruct rs; reflexivity.
Qed.

(** Before the socket is open [send] throws; the handler of ['line'] tests
    [readyState] first and never reaches it. *)
Example send_while_connecting :
  outcome_of (Peer.send (lit "hi") Peer.startClient) = Throws not_open_error
  /\ outcome_of (Peer.onLine (lit "hi") Peer.startClient) = Normal tt.
Proof. split; reflexivity. Qed.

End PeerFacts.




(** C8. A line read while the socket is open is handed to the socket as
    one frame; read in any other state it is answered by the local notice
    and dropped: the state keeps no trace of it, and whatever happens
    later the frames sent are those of a run in which the line was never
    typed. *)
Theorem peer_line_sent_or_dropped
    (p : Process Peer.State) (line : jsstring) (later : list Peer.Event) :
  let p' := Peer.step (Peer.Line line) p in
  status p = Running ->
  Peer.rl (state p) = true ->
  state p' = state p
  /\ status p' = Running
  /\ trace p'
     = trace p ++ [if PeerObs.isOpen (state p)
                   then WsSend Peer.ws line (writable (Peer.socket (state p)))
                   else PeerObs.not_connected]
  /\ (PeerObs.isOpen (state p) = false ->
      frames (trace (Peer.run later p')) = frames (trace (Peer.run later p))).
Proof.
  intros p' Hr Hrl.
  assert (Hp : p' = {| state := state p;
                       trace := trace p ++ [if PeerObs.isOpen (state p)
                                            then WsSend Peer.ws line
                                                   (writable (Peer.socket (state p)))
                                            else PeerObs.not_connected];
                       status := Running |}).
  { unfold p'. rewrite peer_step_running by assumption.
    cbn [Peer.handle]. js. rewrite Hrl. now rewrite onLine_run. }
  rewrite Hp. cbn [state status trace]. repeat split.
  intros Hc. rewrite Hc.
  unfold Peer.run.
  pose proof (loop_run_prefix Peer.handle later (trace p ++ [PeerObs.not_connected])
                (state p) [] Running) as H1.
  pose proof (loop_run_prefix Peer.handle later (trace p) (state p) [] Running) as H2.
  rewrite !app_nil_r in H1, H2. rewrite H1.
  assert (Hq : {| state := state p; trace := trace p; status := Running |} = p)
    by (destruct p; cbn in *; now subst).
  rewrite Hq in H2. rewrite H2. cbn [trace].
  rewrite !frames_app. cbn [frames flat_map app PeerObs.not_connected].
  now rewrite app_nil_r.
Qed.

Lemma peer_line_sent_or_dropped_witness :
  status Sample.closing = Running
  /\ Peer.rl (state Sample.closing) = true
  /\ trace (Peer.step (Peer.Line (lit "hi")) Sample.connected)
     = trace Sample.connected ++ [WsSend Peer.ws (lit "hi") true]
  /\ trace (Peer.step (Peer.Line (lit "hi")) Sample.closing)
     = trace Sample.closing ++ [PeerObs.not_connected]
  /\ frames (trace (Peer.run [Peer.Line (lit "again")]
                      (Peer.step (Peer.Line (lit "hi")) Sample.closing)))
     = frames (trace (Peer.run [Peer.Line (lit "again")] Sample.closing)).
Proof.
  assert (H0 : status Sample.closing = Running) by reflexivity.
  assert (H1 : Peer.rl (state Sample.closing) = true) by reflexivity.
  assert (H2 : status Sample.connected = Running) by reflexivity.
  assert (H3 : Peer.rl (state Sample.connected) = true) by reflexivity.
  pose proof (peer_line_sent_or_dropped Sample.connected (lit "hi") [] H2 H3)
    as (_ & _ & Ha & _).
  pose proof (peer_line_sent_or_dropped Sample.closing (lit "hi")
                [Peer.Line (lit "again")] H0 H1)
    as (_ & _ & Hb & Hc).
  split; [exact H0|]. split; [exact H1|]. split; [exact Ha|].
  split; [exact Hb | exact (Hc eq_refl)].
Defined.

(** C9 (as the specification states it) fails: a binary message that is
    not well-formed UTF-8 is shown as U+FFFD. *)
Lemma peer_message_not_verbatim : ~ Stated.shown_verbatim Peer.startClient [0xFF].
Proof.
  intros (text & Hp & He). vm_compute in He.
  injection He as He. subst text. vm_compute in Hp. discriminate Hp.
Qed.

(** C9 (as the code has it). For every inbound message the peer writes
    one line to stdout: ["> "] followed by [data.toString()], the payload
    decoded as UTF-8, and does nothing else.  For a payload that is
    well-formed UTF-8 that text is the payload itself, and everything a
    hub relays is such a payload. *)
Theorem peer_shows_decoded_message (s : Peer.State) (data : Buffer) :
  Peer.handle (Peer.Message data) s
  = (Normal tt, s, [ConsoleLog [VStr (lit "> " ++ Utf.toString data)]])
  /\ (Utf.is_utf8 data = true -> Stated.shown_verbatim s data)
  /\ (forall inbound : Buffer,
        Stated.shown_verbatim s (Utf.text_payload (Utf.toString inbound))).
Proof.
  split; [reflexivity|]. split.
  - intros Hu. exists (Utf.toString data).
    split; [now apply relay_well_formed | reflexivity].
  - intros inbound. exists (Utf.toString inbound). split; [reflexivity|].
    cbn. now rewrite toString_relayed.
Qed.

Lemma peer_shows_decoded_message_witness :
  Utf.is_utf8 Sample.hi = true
  /\ Peer.handle (Peer.Message Sample.hi) (state Sample.connected)
     = (Normal tt, state Sample.connected, [ConsoleLog [VStr (lit "> hi")]])
  /\ Stated.shown_verbatim (state Sample.connected) Sample.hi.
Proof.
  assert (H0 : Utf.is_utf8 Sample.hi = true) by reflexivity.
  pose proof (peer_shows_decoded_message (state Sample.connected) Sample.hi)
    as (Ha & Hb & _).
  split; [exact H0|]. split; [exact Ha | exact (Hb H0)].
Defined.

(* ================================================================== *)
(** * Shutdown signals *)
(* ================================================================== *)


(** [process.exit] is called by a handler that ends the process with that
    call, and by no other. *)
Lemma exit_calls_sweep cs s :
  exit_calls (snd (HubObs.sweep HubObs.close_one cs s)) = [].
Proof.
  revert s. induction cs as [|c cs IH]; intros s; [reflexivity|].
  cbn [HubObs.sweep]. pose proof (close_one_effects c s) as H1.
  destruct (HubObs.close_one c s) as [s0 e0]. specialize (IH s0).
  destruct (HubObs.sweep HubObs.close_one cs s0) as [s2 e2]. cbn [snd] in *.
  rewrite exit_calls_app, IH, H1. destruct (HubObs.isOpen s c); reflexivity.
Qed.

Lemma exit_calls_relay s msg cs :
  exit_calls (flat_map (HubObs.relay_one s msg) cs) = [].
Proof.
  induction cs as [|c cs IH]; [reflexivity|].
  cbn [flat_map]. rewrite exit_calls_app, IH. unfold HubObs.relay_one.
  destruct (Hub.sockets s !! c) as [w|]; [|reflexivity].
  destruct (ReadyState_eqb (readyState w) OPEN); reflexivity.
Qed.

Lemma handle_exit_calls ev s :
  exit_calls (effects_of (Hub.handle ev s))
  = match outcome_of (Hub.handle ev s) with
    | Exits c => [c]
    | _ => []
    end.
Proof.
  destruct ev; try reflexivity.
  - cbn [Hub.handle]. unfold Hub.accept, Hub.onConnection. js.
    destruct (Hub.server s); reflexivity.
  - rewrite handle_Message. destruct (Hub.sockets s !! c); [|reflexivity].
    rewrite onMessage_run. cbn [effects_of outcome_of fst snd].
    change (?x :: ?l) with ([x] ++ l). rewrite exit_calls_app, exit_calls_relay.
    reflexivity.
  - cbn [Hub.handle]. unfold Hub.on, Hub.update, Hub.onError. js.
    destruct (Hub.sockets s !! c); reflexivity.
  - cbn [Hub.handle]. unfold Hub.on, Hub.update, Hub.onClose. js.
    destruct (Hub.sockets s !! c); reflexivity.
  - rewrite handle_Signalled. cbn [effects_of outcome_of fst snd].
    change (?x :: ?l) with ([x] ++ l). rewrite !exit_calls_app, exit_calls_sweep.
    reflexivity.
  - rewrite handle_ListenerClosed. destruct (Hub.closeListeners s); reflexivity.
Qed.

Lemma peer_handle_exit_calls ev s :
  exit_calls (effects_of (Peer.handle ev s))
  = match outcome_of (Peer.handle ev s) with
    | Exits c => [c]
    | _ => []
    end.
Proof.
  destruct ev; try reflexivity.
  - cbn [Peer.handle]. unfold Peer.onOpen. js.
    destruct (readyState (Peer.socket s)); reflexivity.
  - cbn [Peer.handle]. js. destruct (Peer.rl s); [|reflexivity].
    rewrite onLine_run. destruct (PeerObs.isOpen s); reflexivity.
  - cbn [Peer.handle]. destruct sig; cbn [Peer.onSignal];
      rewrite shutdownClient_run; destruct (PeerObs.isOpen s); reflexivity.
Qed.





(* ================================================================== *)
(** * Entry point *)
(* ================================================================== *)

Lemma str_eqb_eq a b : str_eqb a b = true <-> a = b.
Proof.
  revert b. induction a as [|x a IH]; intros [|y b]; cbn; try (split; congruence).
  rewrite andb_true_iff, Z.eqb_eq, IH. split; [intros [-> ->]; reflexivity|].
  intros H; injection H; auto.
Qed.

Lemma entry_dispatch table a rest :
  entry table (a :: rest) tt
  = if str_eqb (toLowerCase table a) (lit "start") then (Normal LaunchServer, tt, [])
    else if str_eqb (toLowerCase table a) (lit "connect")
         then (Normal LaunchClient, tt, [])
         else (Exits 1, tt,
               [ConsoleError [VStr (lit "Unknown command: " ++ toLowerCase table a)];
                ConsoleError [VStr usage];
                ProcessExit 1]).
Proof.
  unfold entry. js. cbn [length Nat.eqb nth_error].
  destruct (str_eqb (toLowerCase table a) (lit "start")); [reflexivity|].
  destruct (str_eqb (toLowerCase table a) (lit "connect")); reflexivity.
Qed.

(** [startServer()] and [startClient()] do not return: the first
    [process.on] throws, nothing has been printed, no listener is
    registered. *)
Lemma hub_launch tr :
  Hub.launch tr
  = {| state := Hub.startServer; trace := tr; status := Uncaught process_on_error |}.
Proof. unfold Hub.launch, dispatch. cbn. now rewrite app_nil_r. Qed.

Lemma peer_launch tr :
  Peer.launch tr
  = {| state := Peer.startClient; trace := tr; status := Uncaught process_on_error |}.
Proof. unfold Peer.launch, dispatch. cbn. now rewrite app_nil_r. Qed.

Lemma main_dispatch table a rest :
  main table (a :: rest)
  = if str_eqb (toLowerCase table a) (lit "start")
    then HubProcess {| state := Hub.startServer; trace := [];
                       status := Uncaught process_on_error |}
    else if str_eqb (toLowerCase table a) (lit "connect")
         then PeerProcess {| state := Peer.startClient; trace := [];
                             status := Uncaught process_on_error |}
         else Stopped [ConsoleError [VStr (lit "Unknown command: "
                                           ++ toLowerCase table a)];
                       ConsoleError [VStr usage];
                       ProcessExit 1] (Exited 1).
Proof.
  unfold main. rewrite entry_dispatch.
  destruct (str_eqb (toLowerCase table a) (lit "start"));
    [cbn [outcome_of effects_of fst snd]; now rewrite hub_launch|].
  destruct (str_eqb (toLowerCase table a) (lit "connect"));
    [cbn [outcome_of effects_of fst snd]; now rewrite peer_launch|].
  reflexivity.
Qed.

(** C7. Without arguments the script writes the usage line to stderr and
    exits with code 1, before it looks at a first argument; with a first
    argument that is neither [start] nor [connect] in lower case it writes
    the unknown-command line and the usage line to stderr and exits with
    code 1.  With [start] it calls [startServer], with [connect]
    [startClient], and writes nothing.  Neither call returns: the
    registration of the signal handlers at its end throws, and the process
    ends with the uncaught [TypeError], exit code 1, before an event has
    been handled.  The hub and the peer are started and do not run. *)
Theorem cli_dispatch (table : CaseTable) :
  main table [] = Stopped [ConsoleError [VStr usage]; ProcessExit 1] (Exited 1)
  /\ (forall rest,
        entry table (lit "start" :: rest) tt = (Normal LaunchServer, tt, [])
        /\ main table (lit "start" :: rest)
           = HubProcess {| state := Hub.startServer; trace := [];
                           status := Uncaught process_on_error |}
        /\ program_exit_code (main table (lit "start" :: rest)) = Some 1)
  /\ (forall rest,
        entry table (lit "connect" :: rest) tt = (Normal LaunchClient, tt, [])
        /\ main table (lit "connect" :: rest)
           = PeerProcess {| state := Peer.startClient; trace := [];
                            status := Uncaught process_on_error |}
        /\ program_exit_code (main table (lit "connect" :: rest)) = Some 1)
  /\ (forall a rest,
        toLowerCase table a <> lit "start" ->
        toLowerCase table a <> lit "connect" ->
        main table (a :: rest)
        = Stopped [ConsoleError [VStr (lit "Unknown command: " ++ toLowerCase table a)];
                   ConsoleError [VStr usage];
                   ProcessExit 1] (Exited 1)).
Proof.
  split; [reflexivity|].
  split; [intros rest; rewrite entry_dispatch, main_dispatch; repeat split|].
  split; [intros rest; rewrite entry_dispatch, main_dispatch; repeat split|].
  intros a rest H1 H2. rewrite main_dispatch.
  destruct (str_eqb (toLowerCase table a) (lit "start")) eqn:E1;
    [apply str_eqb_eq in E1; contradiction|].
  destruct (str_eqb (toLowerCase table a) (lit "connect")) eqn:E2;
    [apply str_eqb_eq in E2; contradiction|].
  reflexivity.
Qed.

Lemma cli_dispatch_witness :
  toLowerCase (fun s => s) (lit "Stop") <> lit "start"
  /\ toLowerCase (fun s => s) (lit "Stop") <> lit "connect"
  /\ main (fun s => s) [lit "Stop"; lit "now"]
     = Stopped [ConsoleError [VStr (lit "Unknown command: stop")];
                ConsoleError [VStr (lit "Usage: broadcast-server <start|connect>")];
                ProcessExit 1] (Exited 1).
Proof.
  assert (H1 : toLowerCase (fun s => s) (lit "Stop") <> lit "start")
    by (vm_compute; discriminate).
  assert (H2 : toLowerCase (fun s => s) (lit "Stop") <> lit "connect")
    by (vm_compute; discriminate).
  split; [exact H1|]. split; [exact H2|].
  exact (proj2 (proj2 (proj2 (cli_dispatch (fun s => s)))) (lit "Stop") [lit "now"] H1 H2).
Defined.

(** A variant of an ASCII word in lower case is ASCII, and is put back in
    lower case unit by unit. *)
Lemma case_variant_lower table word s :
  forallb is_ascii word = true ->
  List.map lower_unit word = word ->
  case_variant word s = true ->
  toLowerCase table s = word.
Proof.
  intros Ha Hw Hv.
  enough (H : forallb is_ascii s = true /\ List.map lower_unit s = word).
  { unfold toLowerCase. destruct H as [-> H]. exact H. }
  revert s Ha Hw Hv. induction word as [|w word IH]; intros [|u s] Ha Hw Hv;
    cbn in Hv; try discriminate; [split; reflexivity|].
  cbn [forallb List.map] in *. injection Hw as Hw1 Hw2.
  apply andb_true_iff in Ha as [Ha1 Ha2].
  apply andb_true_iff in Hv as [Hu Hv].
  destruct (IH s Ha2 Hw2 Hv) as [IH1 IH2]. rewrite IH1, IH2, andb_true_r.
  apply orb_true_iff in Hu as [Hu|Hu].
  - apply Z.eqb_eq in Hu. subst u. rewrite Ha1, Hw1. split; reflexivity.
  - rewrite !andb_true_iff, !Z.leb_le, Z.eqb_eq in Hu. destruct Hu as [[H1 H2] ->].
    unfold is_ascii, lower_unit.
    assert ((0 <=? w - 32) && (w - 32 <=? 127) = true) as ->
      by (apply andb_true_iff; rewrite !Z.leb_le; lia).
    assert ((65 <=? w - 32) && (w - 32 <=? 90) = true) as ->
      by (apply andb_true_iff; rewrite !Z.leb_le; lia).
    split; [reflexivity | f_equal; lia].
Qed.

(** C10. The first argument is put in lower case before it is compared:
    every way of capitalising [start] selects [startServer] and every way
    of capitalising [connect] selects [startClient], with nothing written
    to stderr; the script then does what it does for the word in lower
    case.  That is to start the hub, or the peer, and to end with the
    uncaught [TypeError] of the signal registration, exit code 1: the
    command is not rejected, and the hub or the peer does not run. *)
Theorem cli_case_insensitive
    (table : CaseTable) (a b : jsstring) (rest : list jsstring) :
  case_variant (lit "start") a = true ->
  case_variant (lit "connect") b = true ->
  (entry table (a :: rest) tt = (Normal LaunchServer, tt, [])
   /\ main table (a :: rest) = main table (lit "start" :: rest)
   /\ main table (a :: rest)
      = HubProcess {| state := Hub.startServer; trace := [];
                      status := Uncaught process_on_error |})
  /\ (entry table (b :: rest) tt = (Normal LaunchClient, tt, [])
      /\ main table (b :: rest) = main table (lit "connect" :: rest)
      /\ main table (b :: rest)
         = PeerProcess {| state := Peer.startClient; trace := [];
                          status := Uncaught process_on_error |}).
Proof.
  intros Ha Hb.
  apply (case_variant_lower table) in Ha; [|reflexivity|reflexivity].
  apply (case_variant_lower table) in Hb; [|reflexivity|reflexivity].
  rewrite !entry_dispatch, !main_dispatch, Ha, Hb. repeat split.
Qed.

Lemma cli_case_insensitive_witness :
  case_variant (lit "start") (lit "START") = true
  /\ case_variant (lit "connect") (lit "Connect") = true
  /\ entry (fun s => s) [lit "START"] tt = (Normal LaunchServer, tt, [])
  /\ main (fun s => s) [lit "Connect"]
     = PeerProcess {| state := Peer.startClient; trace := [];
                      status := Uncaught process_on_error |}.
Proof.
  assert (H1 : case_variant (lit "start") (lit "START") = true) by reflexivity.
  assert (H2 : case_variant (lit "connect") (lit "Connect") = true) by reflexivity.
  pose proof (cli_case_insensitive (fun s => s) (lit "START") (lit "Connect") [] H1 H2)
    as ((Ha & _) & (_ & _ & Hb)).
  split; [exact H1|]. split; [exact H2|]. split; [exact Ha | exact Hb].
Defined.

(* ================================================================== *)
(** * The scenarios of the specification, run *)
(* ================================================================== *)

(** A peer connects and types [hello]; the hub hands the text back to it
    and the peer prints ["> hello"]. *)
Example scenario_echo :
  frames (trace (Peer.run [Peer.Open; Peer.Line (lit "hello")] Peer.boot))
  = [(Peer.ws, lit "hello")]
  /\ sends_to 0 (trace (Hub.run [Hub.Connection;
                                 Hub.Message 0 (Utf.text_payload (lit "hello"))]
                         Hub.boot))
     = [(lit "hello", true)]
  /\ effects_of (Peer.handle (Peer.Message (Utf.text_payload (lit "hello")))
                   (state Sample.connected))
     = [ConsoleLog [VStr (lit "> hello")]].
Proof. repeat split; reflexivity. Qed.

(** With two peers connected, a message of the first goes to both. *)
Example scenario_two_peers :
  frames (HubObs.broadcast Sample.two_clients 0 Sample.hi)
  = [(0%nat, lit "hi"); (1%nat, lit "hi")].
Proof. reflexivity. Qed.

(** When the second peer has gone, the set is one smaller and the next
    message goes to the first peer only. *)
Example scenario_disconnect :
  Hub.clients (state (Hub.run [Hub.Connection; Hub.Connection; Hub.SocketClose 1]
                        Hub.boot))
  = [0%nat]
  /\ frames (HubObs.broadcast
               (state (Hub.run [Hub.Connection; Hub.Connection; Hub.SocketClose 1]
                         Hub.boot))
               0 Sample.hi)
     = [(0%nat, lit "hi")].
Proof. split; reflexivity. Qed.

(** A member that is closing is passed over. *)
Example scenario_closing_member :
  frames (HubObs.broadcast
            (state (Hub.run [Hub.Connection; Hub.Connection; Hub.CloseFrame 0]
                      Hub.boot))
            0 Sample.hi)
  = [(1%nat, lit "hi")].
Proof. reflexivity. Qed.

(** Two signals, then the listener closes: the close sequence is logged
    twice, each member is asked to close once, and the process exits
    once. *)
Example scenario_two_signals :
  trace (Hub.run [Hub.Connection; Hub.Signalled SIGINT; Hub.Signalled SIGINT;
                  Hub.ListenerClosed; Hub.Signalled SIGINT]
           {| state := Hub.startServer; trace := []; status := Running |})
  = [ConsoleLog [VStr (lit "New client connected. Total clients:"); VNum 1];
     HubObs.shutting_down;
     WsClose 0 1001 (lit "Server shutting down");
     WssClose;
     HubObs.shutting_down;
     WssClose;
     HubObs.server_has_closed;
     ProcessExit 0].
Proof. reflexivity. Qed.

(* ================================================================== *)
(** * Whole runs *)
(* ================================================================== *)

(** A property of a run proved event by event, from the last one back. *)
Lemma loop_run_ind {S E : Type} (handle : E -> Js S unit) (p0 : Process S)
      (P : list E -> Process S -> Prop) :
  P [] p0 ->
  (forall evs ev, P evs (loop_run handle evs p0) ->
                  P (evs ++ [ev]) (loop_step handle ev (loop_run handle evs p0))) ->
  forall evs, P evs (loop_run handle evs p0).
Proof.
  intros H0 Hstep evs. induction evs as [|ev evs IH] using rev_ind; [exact H0|].
  rewrite loop_run_snoc. now apply Hstep.
Qed.

Section HubRuns.
Import HubObs.

Lemma sends_to_sweep m cs s : sends_to m (snd (sweep close_one cs s)) = [].
Proof.
  revert s. induction cs as [|c cs IH]; intros s; [reflexivity|].
  cbn [sweep]. pose proof (close_one_effects c s) as H1.
  destruct (close_one c s) as [s0 e0]. specialize (IH s0).
  destruct (sweep close_one cs s0) as [s2 e2]. cbn [snd] in *.
  rewrite sends_to_app, IH, H1. destruct (isOpen s c); reflexivity.
Qed.

(** The loop hands any socket at most one frame. *)
Lemma sends_to_relay_any s msg cs m :
  List.NoDup cs ->
  sends_to m (flat_map (relay_one s msg) cs)
  = if existsb (Nat.eqb m) cs && isOpen s m then [(msg, isWritable s m)] else [].
Proof.
  intros Hnd. induction Hnd as [|c cs Hc Hnd IH]; [reflexivity|].
  cbn [flat_map existsb]. rewrite sends_to_app, sends_to_relay_one, IH.
  rewrite (Nat.eqb_sym m c).
  destruct (Nat.eqb_spec c m) as [->|Hne]; cbn [orb andb].
  - assert (existsb (Nat.eqb m) cs = false) as ->.
    { destruct (existsb (Nat.eqb m) cs) eqn:E; [|reflexivity].
      apply existsb_exists in E as (x & Hx & Hxm). apply Nat.eqb_eq in Hxm.
      subst x. contradiction. }
    cbn [andb]. destruct (isOpen s m); reflexivity.
  - reflexivity.
Qed.

(** What a handler hands to socket [m]. *)
Lemma handle_sends ev s m :
  List.NoDup (Hub.clients s) ->
  sends_to m (effects_of (Hub.handle ev s))
  = match ev with
    | Hub.Message c data =>
      match Hub.sockets s !! c with
      | Some _ =>
        if existsb (Nat.eqb m) (Hub.clients s) && isOpen s m
        then [(Utf.toString data, isWritable s m)] else []
      | None => []
      end
    | _ => []
    end.
Proof.
  intros Hnd. destruct ev; try reflexivity.
  - cbn [Hub.handle]. unfold Hub.accept, Hub.onConnection. js.
    destruct (Hub.server s); reflexivity.
  - rewrite handle_Message. destruct (Hub.sockets s !! c); [|reflexivity].
    rewrite onMessage_run. cbn [effects_of snd].
    change (?x :: ?l) with ([x] ++ l). rewrite sends_to_app.
    cbn [sends_to flat_map app]. now apply sends_to_relay_any.
  - cbn [Hub.handle]. unfold Hub.on, Hub.update, Hub.onError. js.
    destruct (Hub.sockets s !! c); reflexivity.
  - cbn [Hub.handle]. unfold Hub.on, Hub.update, Hub.onClose. js.
    destruct (Hub.sockets s !! c); reflexivity.
  - rewrite handle_Signalled. cbn [effects_of snd].
    change (?x :: ?l) with ([x] ++ l). rewrite !sends_to_app, sends_to_sweep.
    reflexivity.
  - rewrite handle_ListenerClosed. cbn. destruct (Hub.closeListeners s); reflexivity.
Qed.

Lemma inbound_app e1 e2 : inbound (e1 ++ e2) = inbound e1 ++ inbound e2.
Proof. apply flat_map_app. Qed.

End HubRuns.

(** X1. In any run of the hub, the frames handed to a socket are texts of
    messages that arrived, each at most once and in the order of arrival. *)
Theorem hub_frames_in_arrival_order (evs : list Hub.Event) (m : nat) :
  sublist (List.map fst (sends_to m (trace (Hub.run evs Hub.boot))))
          (List.map Utf.toString (inbound evs)).
Proof.
  unfold Hub.run.
  apply (loop_run_ind Hub.handle Hub.boot
           (fun evs p => List.NoDup (Hub.clients (state p))
                         /\ sublist (List.map fst (sends_to m (trace p)))
                                    (List.map Utf.toString (inbound evs)))).
  - split; [constructor | constructor].
  - clear evs. intros evs ev [Hnd IH].
    destruct (status (loop_run Hub.handle evs Hub.boot)) eqn:Hst.
    + rewrite loop_step_running by assumption. cbn [state trace]. split.
      * now apply handle_NoDup.
      * rewrite sends_to_app, inbound_app, !map_app.
        apply sublist_app; [exact IH|].
        rewrite handle_sends by assumption.
        destruct ev; cbn; try apply sublist_nil_l.
        destruct (Hub.sockets _ !! c); [|apply sublist_nil_l].
        destruct (_ && _); [reflexivity | apply sublist_nil_l].
    + rewrite loop_step_stopped by congruence. split; [exact Hnd|].
      rewrite inbound_app, map_app. now apply sublist_inserts_r.
    + rewrite loop_step_stopped by congruence. split; [exact Hnd|].
      rewrite inbound_app, map_app. now apply sublist_inserts_r.
Qed.

Section HubSockets.
Import HubObs.

Lemma lookup_close_one c s x :
  isOpen s x = false ->
  Hub.sockets (fst (close_one c s)) !! x = Hub.sockets s !! x.
Proof.
  intros Hx. unfold close_one, isOpen in *.
  destruct (Hub.sockets s !! c) as [w|] eqn:E; [|reflexivity].
  destruct (ReadyState_eqb (readyState w) OPEN) eqn:R; [|reflexivity].
  cbn [fst Hub.set_sockets Hub.sockets].
  destruct (Nat.eq_dec c x) as [->|Hne]; [rewrite E, R in Hx; discriminate|].
  now rewrite lookup_insert_ne.
Qed.

Lemma is_Some_close_one c s x :
  is_Some (Hub.sockets (fst (close_one c s)) !! x) <-> is_Some (Hub.sockets s !! x).
Proof.
  unfold close_one.
  destruct (Hub.sockets s !! c) as [w|] eqn:E; [|reflexivity].
  destruct (ReadyState_eqb (readyState w) OPEN) eqn:R; [|reflexivity].
  cbn [fst Hub.set_sockets Hub.sockets].
  destruct (Nat.eq_dec c x) as [->|Hne].
  - rewrite lookup_insert_eq, E. split; eauto.
  - now rewrite lookup_insert_ne.
Qed.

Lemma is_Some_sweep cs s x :
  is_Some (Hub.sockets (fst (sweep close_one cs s)) !! x) <-> is_Some (Hub.sockets s !! x).
Proof.
  revert s. induction cs as [|c cs IH]; intros s; [reflexivity|].
  cbn [sweep]. pose proof (is_Some_close_one c s x) as H1.
  destruct (close_one c s) as [s0 e0]. specialize (IH s0).
  destruct (sweep close_one cs s0) as [s2 e2]. cbn [fst] in *.
  now rewrite IH.
Qed.

(** What a handler does to the sockets: it makes none disappear, and it
    opens none but the new one of a connection. *)
Lemma handle_socket ev s x :
  numbered s ->
  is_Some (Hub.sockets s !! x) ->
  is_Some (Hub.sockets (state_of (Hub.handle ev s)) !! x)
  /\ (isOpen s x = false -> isOpen (state_of (Hub.handle ev s)) x = false).
Proof.
  intros [Hn _] Hx. pose proof (Hn x Hx) as Hlt. destruct ev.
  - split; auto.
  - split; auto.
  - cbn [Hub.handle]. unfold Hub.accept, Hub.onConnection. js.
    destruct (Hub.server s); cbn; try (split; auto; fail).
    unfold isOpen. cbn. rewrite lookup_insert_ne by lia. split; auto.
  - rewrite handle_Message. destruct (Hub.sockets s !! c); [|split; auto].
    rewrite onMessage_run. split; auto.
  - cbn. unfold isOpen. cbn.
    destruct (Hub.sockets s !! c) as [w|] eqn:E; [|split; auto].
    destruct (Nat.eq_dec c x) as [->|Hne].
    + rewrite lookup_insert_eq, E. cbn. split; eauto.
    + rewrite lookup_insert_ne by assumption. split; auto.
  - cbn. unfold isOpen. cbn.
    destruct (Hub.sockets s !! c) as [w|] eqn:E; [|split; auto].
    destruct (Nat.eq_dec c x) as [->|Hne].
    + rewrite lookup_insert_eq. split; [eauto|]. intros _.
      unfold Hub.leaving. destruct (readyState w) eqn:R; cbn; rewrite ?R; reflexivity.
    + rewrite lookup_insert_ne by assumption. split; auto.
  - cbn [Hub.handle]. unfold Hub.on, Hub.update, Hub.onError. js.
    unfold isOpen.
    destruct (Hub.sockets s !! c) as [w|] eqn:E; cbn; [|split; auto].
    rewrite E.
    destruct (Nat.eq_dec c x) as [->|Hne].
    + rewrite lookup_insert_eq. split; [eauto|]. intros _.
      unfold Hub.leaving. destruct (readyState w) eqn:R; cbn; rewrite ?R; reflexivity.
    + rewrite lookup_insert_ne by assumption. split; auto.
  - cbn [Hub.handle]. unfold Hub.on, Hub.update, Hub.onClose. js.
    unfold isOpen.
    destruct (Hub.sockets s !! c) as [w|] eqn:E; cbn; [|split; auto].
    rewrite E.
    destruct (Nat.eq_dec c x) as [->|Hne].
    + rewrite lookup_insert_eq. split; [eauto|]. reflexivity.
    + rewrite lookup_insert_ne by assumption. split; auto.
  - rewrite handle_Signalled. unfold state_of. cbn [fst snd]. split.
    + unfold after_signal. cbn [Hub.sockets]. now apply is_Some_sweep.
    + intros Ho.
      change (isOpen (after_signal s) x)
        with (isOpen (fst (sweep close_one (Hub.clients s) s)) x).
      rewrite isOpen_sweep, Ho. reflexivity.
  - rewrite handle_ListenerClosed. destruct (Hub.closeListeners s); split; auto.
Qed.

Lemma handle_numbered ev s : numbered s -> numbered (state_of (Hub.handle ev s)).
Proof.
  intros [Hs Hc]. destruct ev.
  - split; auto.
  - split; auto.
  - cbn [Hub.handle]. unfold Hub.accept, Hub.onConnection. js.
    destruct (Hub.server s); cbn; try (split; auto; fail).
    unfold numbered. cbn [Hub.sockets Hub.clients Hub.nextId]. split.
    + intros x. destruct (Nat.eq_dec (Hub.nextId s) x) as [<-|Hne]; [intros _; lia|].
      rewrite lookup_insert_ne by assumption. intros H. specialize (Hs x H). lia.
    + intros x Hx. destruct (existsb _ _).
      * specialize (Hc x Hx). lia.
      * apply in_app_iff in Hx as [Hx|[<-|[]]]; [specialize (Hc x Hx)|]; lia.
  - rewrite handle_Message. destruct (Hub.sockets s !! c); [|split; auto].
    rewrite onMessage_run. split; auto.
  - cbn. split; [|exact Hc]. intros x. cbn.
    destruct (Hub.sockets s !! c) as [w|] eqn:E; [|apply Hs].
    destruct (Nat.eq_dec c x) as [->|Hne].
    + intros _. apply Hs. rewrite E. eauto.
    + rewrite lookup_insert_ne by assumption. apply Hs.
  - cbn. split; [|exact Hc]. intros x. cbn.
    destruct (Hub.sockets s !! c) as [w|] eqn:E; [|apply Hs].
    destruct (Nat.eq_dec c x) as [->|Hne].
    + intros _. apply Hs. rewrite E. eauto.
    + rewrite lookup_insert_ne by assumption. apply Hs.
  - cbn [Hub.handle]. unfold Hub.on, Hub.update, Hub.onError. js.
    destruct (Hub.sockets s !! c) as [w|] eqn:E; cbn; [|split; auto].
    unfold numbered. cbn. rewrite ?E. split; [|exact Hc]. intros x.
    destruct (Nat.eq_dec c x) as [->|Hne].
    + intros _. apply Hs. rewrite E. eauto.
    + rewrite lookup_insert_ne by assumption. apply Hs.
  - cbn [Hub.handle]. unfold Hub.on, Hub.update, Hub.onClose. js.
    destruct (Hub.sockets s !! c) as [w|] eqn:E; cbn; [|split; auto].
    unfold numbered. cbn. rewrite ?E. split.
    + intros x. destruct (Nat.eq_dec c x) as [->|Hne].
      * intros _. apply Hs. rewrite E. eauto.
      * rewrite lookup_insert_ne by assumption. apply Hs.
    + intros x Hx. apply filter_In in Hx as [Hx _]. now apply Hc.
  - rewrite handle_Signalled. unfold state_of. cbn [fst snd].
    unfold after_signal, numbered. cbn [Hub.sockets Hub.clients Hub.nextId].
    destruct (sweep_close_frame (Hub.clients s) s) as (-> & -> & _ & _). split.
    + intros x Hx. apply Hs. now apply is_Some_sweep in Hx.
    + exact Hc.
  - rewrite handle_ListenerClosed. destruct (Hub.closeListeners s); split; auto.
Qed.

Lemma boot_numbered : numbered Hub.startServer.
Proof.
  split.
  - intros x [w Hw]. cbn in Hw. rewrite lookup_empty in Hw. discriminate.
  - intros x [].
Qed.

Lemma handle_sound ev s : sound s -> sound (state_of (Hub.handle ev s)).
Proof. intros [H1 H2]. split; [now apply handle_NoDup | now apply handle_numbered]. Qed.

Lemma boot_sound evs : sound (state (Hub.run evs Hub.boot)).
Proof.
  apply (loop_run_invariant Hub.handle sound).
  - apply handle_sound.
  - split; [constructor | apply boot_numbered].
Qed.

End HubSockets.

Section HubBatches.
Import HubObs.

(** A message changes nothing in the hub. *)
Lemma step_Message c data q :
  status q = Running ->
  state (Hub.step (Hub.Message c data) q) = state q
  /\ status (Hub.step (Hub.Message c data) q) = Running.
Proof.
  intros Hr. rewrite step_running by assumption. cbn [state status].
  rewrite handle_Message. destruct (Hub.sockets (state q) !! c); [|split; reflexivity].
  rewrite onMessage_run. split; reflexivity.
Qed.

Lemma run_messages batch q :
  status q = Running ->
  state (Hub.run (messages batch) q) = state q
  /\ status (Hub.run (messages batch) q) = Running.
Proof.
  revert q. induction batch as [|[c data] batch IH]; intros q Hr; [auto|].
  cbn [messages List.map fst snd]. unfold Hub.run. rewrite loop_run_cons.
  destruct (step_Message c data q Hr) as [Hs Ht].
  destruct (IH _ Ht) as [Hs' Ht']. unfold Hub.run, Hub.step, messages in *.
  split; [congruence | exact Ht'].
Qed.

Lemma messages_app b1 b2 : messages (b1 ++ b2) = messages b1 ++ messages b2.
Proof. apply map_app. Qed.

End HubBatches.

(** X2. A member that is open receives every message of a batch, in
    order, one frame each. *)
Theorem hub_open_member_gets_every_message
    (evs : list Hub.Event) (batch : list (nat * Buffer)) (m : nat) :
  let p := Hub.run evs Hub.boot in
  let p' := Hub.run (messages batch) p in
  status p = Running ->
  Forall (fun b => is_Some (Hub.sockets (state p) !! fst b)) batch ->
  In m (Hub.clients (state p)) ->
  HubObs.isOpen (state p) m = true ->
  state p' = state p
  /\ status p' = Running
  /\ sends_to m (trace p')
     = sends_to m (trace p)
       ++ List.map (fun b => (Utf.toString (snd b), HubObs.isWritable (state p) m)) batch.
Proof.
  intros p p' Hr Hb Hm Ho. subst p'.
  destruct (run_messages batch p Hr) as [Hs Ht].
  split; [exact Hs|]. split; [exact Ht|]. clear Hs Ht.
  pose proof (boot_NoDup evs) as Hnd. fold p in Hnd.
  assert (Hmem : existsb (Nat.eqb m) (Hub.clients (state p)) = true).
  { apply existsb_exists. exists m. split; [exact Hm | apply Nat.eqb_refl]. }
  induction batch as [|[c data] batch IH] using rev_ind; [now rewrite app_nil_r|].
  apply Forall_app in Hb as [Hb Hc]. apply Forall_inv in Hc. cbn [fst] in Hc.
  destruct Hc as [w Hw].
  rewrite messages_app, map_app.
  change (messages [(c, data)]) with [Hub.Message c data].
  unfold Hub.run. rewrite loop_run_snoc.
  destruct (run_messages batch p Hr) as [Hs Ht]. unfold Hub.run in Hs, Ht.
  rewrite loop_step_running by exact Ht. cbn [trace List.map fst snd].
  rewrite sends_to_app. unfold Hub.run in IH. rewrite (IH Hb).
  rewrite handle_sends by (rewrite Hs; exact Hnd).
  rewrite Hs, Hw, Hmem, Ho. cbn [andb]. now rewrite <- app_assoc.
Qed.

Lemma hub_open_member_gets_every_message_witness :
  status (Hub.run Sample.one_broken Hub.boot) = Running
  /\ Forall (fun b => is_Some (Hub.sockets (state (Hub.run Sample.one_broken Hub.boot))
                                 !! fst b))
            [(0%nat, Sample.hi); (2%nat, [0xFF]); (0%nat, Sample.hi)]
  /\ In 2%nat (Hub.clients (state (Hub.run Sample.one_broken Hub.boot)))
  /\ HubObs.isOpen (state (Hub.run Sample.one_broken Hub.boot)) 2 = true
  /\ sends_to 2
       (trace (Hub.run (messages [(0%nat, Sample.hi); (2%nat, [0xFF]); (0%nat, Sample.hi)])
                 (Hub.run Sample.one_broken Hub.boot)))
     = [(lit "hi", true); ([0xFFFD], true); (lit "hi", true)].
Proof.
  assert (H0 : status (Hub.run Sample.one_broken Hub.boot) = Running) by reflexivity.
  assert (H1 : Forall (fun b => is_Some (Hub.sockets
                                           (state (Hub.run Sample.one_broken Hub.boot))
                                           !! fst b))
                      [(0%nat, Sample.hi); (2%nat, [0xFF]); (0%nat, Sample.hi)])
    by (repeat constructor; eexists; reflexivity).
  assert (H2 : In 2%nat (Hub.clients (state (Hub.run Sample.one_broken Hub.boot))))
    by (right; right; left; reflexivity).
  assert (H3 : HubObs.isOpen (state (Hub.run Sample.one_broken Hub.boot)) 2 = true)
    by reflexivity.
  pose proof (hub_open_member_gets_every_message Sample.one_broken
                [(0%nat, Sample.hi); (2%nat, [0xFF]); (0%nat, Sample.hi)] 2
                H0 H1 H2 H3) as (_ & _ & Ha).
  split; [exact H0|]. split; [exact H1|]. split; [exact H2|]. split; [exact H3|].
  exact Ha.
Defined.

Section HubLife.
Import HubObs.

(** The handlers of the client events finish normally and leave the
    callbacks given to [wss.close] as they are. *)
Lemma handle_from_client ev s :
  from_client ev = true ->
  outcome_of (Hub.handle ev s) = Normal tt
  /\ Hub.closeListeners (state_of (Hub.handle ev s)) = Hub.closeListeners s.
Proof.
  intros Hev. destruct ev; try discriminate; try (split; reflexivity).
  - cbn [Hub.handle]. unfold Hub.accept, Hub.onConnection. js.
    destruct (Hub.server s); split; reflexivity.
  - rewrite handle_Message. destruct (Hub.sockets s !! c); [|split; reflexivity].
    rewrite onMessage_run. split; reflexivity.
  - cbn [Hub.handle]. unfold Hub.on, Hub.update, Hub.onError. js.
    destruct (Hub.sockets s !! c); split; reflexivity.
  - cbn [Hub.handle]. unfold Hub.on, Hub.update, Hub.onClose. js.
    destruct (Hub.sockets s !! c); split; reflexivity.
Qed.

End HubLife.

(** X3. Nothing its clients do ends a running hub: the handlers of
    connections, messages, failed writes, close frames, socket errors and
    disconnections neither call [process.exit] nor let an exception
    escape.  After any number of them the hub still runs, no exit call has
    been added, and a shutdown that was waiting for the listener is still
    waiting. *)
Theorem hub_survives_its_clients (p : Process Hub.State) (evs : list Hub.Event) :
  status p = Running ->
  forallb from_client evs = true ->
  status (Hub.run evs p) = Running
  /\ exit_calls (trace (Hub.run evs p)) = exit_calls (trace p)
  /\ Hub.closeListeners (state (Hub.run evs p)) = Hub.closeListeners (state p).
Proof.
  unfold Hub.run. revert p.
  induction evs as [|ev evs IH]; intros p Hp H; [repeat split; exact Hp|].
  cbn [forallb] in H. apply andb_true_iff in H as [Hev H].
  destruct (handle_from_client ev (state p) Hev) as [Ho Hc].
  pose proof (handle_exit_calls ev (state p)) as He. rewrite Ho in He.
  rewrite loop_run_cons.
  assert (Hq : loop_step Hub.handle ev p
               = {| state := state_of (Hub.handle ev (state p));
                    trace := trace p ++ effects_of (Hub.handle ev (state p));
                    status := Running |}).
  { rewrite loop_step_running by assumption. now rewrite Ho. }
  destruct (IH (loop_step Hub.handle ev p)) as (I1 & I2 & I3);
    [rewrite Hq; reflexivity | exact H |].
  split; [exact I1|]. split.
  - rewrite I2, Hq. cbn [trace]. rewrite exit_calls_app, He. apply app_nil_r.
  - rewrite I3, Hq. exact Hc.
Qed.

Lemma hub_survives_its_clients_witness :
  status (Hub.step (Hub.Signalled SIGINT) (Hub.run Sample.one_broken Hub.boot)) = Running
  /\ forallb from_client
       [Hub.Message 0 Sample.hi; Hub.SocketError 1 Sample.refused;
        Hub.SocketClose 1; Hub.Connection] = true
  /\ status (Hub.run [Hub.Message 0 Sample.hi; Hub.SocketError 1 Sample.refused;
                      Hub.SocketClose 1; Hub.Connection]
                (Hub.step (Hub.Signalled SIGINT) (Hub.run Sample.one_broken Hub.boot)))
     = Running.
Proof.
  assert (H0 : status (Hub.step (Hub.Signalled SIGINT)
                         (Hub.run Sample.one_broken Hub.boot)) = Running)
    by reflexivity.
  assert (H1 : forallb from_client
                 [Hub.Message 0 Sample.hi; Hub.SocketError 1 Sample.refused;
                  Hub.SocketClose 1; Hub.Connection] = true) by reflexivity.
  split; [exact H0|]. split; [exact H1|].
  exact (proj1 (hub_survives_its_clients _ _ H0 H1)).
Defined.

(** X4. A socket that has left the open state is never handed a frame
    again, whatever follows. *)
Theorem hub_no_frame_once_not_open (evs later : list Hub.Event) (c : nat) :
  let p := Hub.run evs Hub.boot in
  is_Some (Hub.sockets (state p) !! c) ->
  HubObs.isOpen (state p) c = false ->
  sends_to c (trace (Hub.run later p)) = sends_to c (trace p)
  /\ HubObs.isOpen (state (Hub.run later p)) c = false.
Proof.
  intros p Hc Ho. pose proof (boot_sound evs) as Hs. fold p in Hs.
  clearbody p. clear evs. unfold Hub.run.
  revert p Hc Ho Hs. induction later as [|ev later IH]; intros p Hc Ho Hs; [auto|].
  rewrite loop_run_cons.
  destruct (status p) eqn:Hst;
    [|rewrite loop_step_stopped by congruence; now apply IH ..].
  destruct (handle_socket ev (state p) c (proj2 Hs) Hc) as [Hc' Ho'].
  specialize (Ho' Ho).
  assert (Hq : sends_to c (trace (loop_step Hub.handle ev p)) = sends_to c (trace p)).
  { rewrite loop_step_running by assumption. cbn [trace].
    rewrite sends_to_app, handle_sends by apply Hs.
    destruct ev; rewrite ?app_nil_r; try reflexivity.
    destruct (Hub.sockets (state p) !! c0); rewrite ?app_nil_r; [|reflexivity].
    rewrite Ho, andb_false_r. now rewrite app_nil_r. }
  rewrite <- Hq. apply IH.
  - rewrite loop_step_running by assumption. exact Hc'.
  - rewrite loop_step_running by assumption. exact Ho'.
  - rewrite loop_step_running by assumption. now apply handle_sound.
Qed.

Lemma hub_no_frame_once_not_open_witness :
  is_Some (Hub.sockets (state (Hub.run [Hub.Connection; Hub.Connection;
                                        Hub.Message 0 Sample.hi; Hub.CloseFrame 1]
                                 Hub.boot)) !! 1%nat)
  /\ HubObs.isOpen (state (Hub.run [Hub.Connection; Hub.Connection;
                                    Hub.Message 0 Sample.hi; Hub.CloseFrame 1]
                             Hub.boot)) 1 = false
  /\ sends_to 1 (trace (Hub.run [Hub.Message 0 Sample.hi; Hub.Connection;
                                 Hub.Message 2 Sample.hi]
                          (Hub.run [Hub.Connection; Hub.Connection;
                                    Hub.Message 0 Sample.hi; Hub.CloseFrame 1]
                             Hub.boot)))
     = [(lit "hi", true)].
Proof.
  assert (H0 : is_Some (Hub.sockets (state (Hub.run [Hub.Connection; Hub.Connection;
                                                     Hub.Message 0 Sample.hi;
                                                     Hub.CloseFrame 1]
                                              Hub.boot)) !! 1%nat))
    by (eexists; reflexivity).
  assert (H1 : HubObs.isOpen (state (Hub.run [Hub.Connection; Hub.Connection;
                                              Hub.Message 0 Sample.hi; Hub.CloseFrame 1]
                                       Hub.boot)) 1 = false) by reflexivity.
  split; [exact H0|]. split; [exact H1|].
  exact (proj1 (hub_no_frame_once_not_open
                  [Hub.Connection; Hub.Connection; Hub.Message 0 Sample.hi; Hub.CloseFrame 1]
                  [Hub.Message 0 Sample.hi; Hub.Connection; Hub.Message 2 Sample.hi]
                  1 H0 H1)).
Defined.

Section HubHandshakes.
Import HubObs.

Lemma handshakes_app c t1 t2 :
  handshakes c (t1 ++ t2) = handshakes c t1 ++ handshakes c t2.
Proof. apply flat_map_app. Qed.

Lemma handshakes_relay c s msg cs :
  handshakes c (flat_map (relay_one s msg) cs) = [].
Proof.
  induction cs as [|x cs IH]; [reflexivity|].
  cbn [flat_map]. rewrite handshakes_app, IH, app_nil_r. unfold relay_one.
  destruct (Hub.sockets s !! x) as [w|]; [|reflexivity].
  destruct (ReadyState_eqb (readyState w) OPEN); reflexivity.
Qed.

Lemma handshakes_closes c s cs :
  List.NoDup cs ->
  handshakes c (List.map (fun x => WsClose x 1001 shutdown_reason)
                         (List.filter (isOpen s) cs))
  = if existsb (Nat.eqb c) cs && isOpen s c then [(1001, shutdown_reason)] else [].
Proof.
  intros Hnd. induction Hnd as [|x cs Hx Hnd IH]; [reflexivity|].
  cbn [List.filter existsb]. rewrite (Nat.eqb_sym c x).
  destruct (Nat.eqb_spec x c) as [->|Hne]; cbn [orb andb].
  - assert (existsb (Nat.eqb c) cs = false) as E.
    { destruct (existsb (Nat.eqb c) cs) eqn:E; [|reflexivity].
      apply existsb_exists in E as (y & Hy & Hyc). apply Nat.eqb_eq in Hyc.
      subst y. contradiction. }
    rewrite E in IH. cbn [andb] in IH.
    destruct (isOpen s c); [|exact IH].
    cbn [List.map handshakes flat_map]. rewrite Nat.eqb_refl.
    cbn [app]. f_equal. exact IH.
  - destruct (isOpen s x); [|exact IH].
    cbn [List.map handshakes flat_map].
    destruct (Nat.eqb_spec x c); [contradiction|]. exact IH.
Qed.

(** The close handshakes a handler starts on socket [c]. *)
Lemma handle_handshakes ev s c :
  List.NoDup (Hub.clients s) ->
  handshakes c (effects_of (Hub.handle ev s))
  = match ev with
    | Hub.Signalled _ =>
      if existsb (Nat.eqb c) (Hub.clients s) && isOpen s c
      then [(1001, shutdown_reason)] else []
    | _ => []
    end.
Proof.
  intros Hnd. destruct ev; try reflexivity.
  - cbn [Hub.handle]. unfold Hub.accept, Hub.onConnection. js.
    destruct (Hub.server s); reflexivity.
  - rewrite handle_Message. destruct (Hub.sockets s !! c0); [|reflexivity].
    rewrite onMessage_run. cbn [effects_of snd].
    change (?x :: ?l) with ([x] ++ l). rewrite handshakes_app.
    now rewrite handshakes_relay.
  - cbn [Hub.handle]. unfold Hub.on, Hub.update, Hub.onError. js.
    destruct (Hub.sockets s !! c0); reflexivity.
  - cbn [Hub.handle]. unfold Hub.on, Hub.update, Hub.onClose. js.
    destruct (Hub.sockets s !! c0); reflexivity.
  - rewrite handle_Signalled. cbn [effects_of snd].
    change (?x :: ?l) with ([x] ++ l). rewrite !handshakes_app.
    rewrite sweep_effects by assumption. rewrite handshakes_closes by assumption.
    cbn [handshakes flat_map shutting_down app]. now rewrite app_nil_r.
  - rewrite handle_ListenerClosed. cbn. destruct (Hub.closeListeners s); reflexivity.
Qed.

Lemma isOpen_is_Some s c : isOpen s c = true -> is_Some (Hub.sockets s !! c).
Proof. unfold isOpen. destruct (Hub.sockets s !! c); [eauto | discriminate]. Qed.

End HubHandshakes.

(** X5. However many signals arrive and whatever the clients do, the hub
    starts at most one close handshake on a socket, and it is the one with
    code 1001. *)
Theorem hub_one_handshake_per_socket (evs : list Hub.Event) (c : nat) :
  handshakes c (trace (Hub.run evs Hub.boot)) = []
  \/ handshakes c (trace (Hub.run evs Hub.boot)) = [(1001, lit "Server shutting down")].
Proof.
  unfold Hub.run.
  enough (H : sound (state (loop_run Hub.handle evs Hub.boot))
              /\ (handshakes c (trace (loop_run Hub.handle evs Hub.boot)) = []
                  \/ (handshakes c (trace (loop_run Hub.handle evs Hub.boot))
                      = [(1001, lit "Server shutting down")]
                      /\ is_Some (Hub.sockets (state (loop_run Hub.handle evs Hub.boot)) !! c)
                      /\ HubObs.isOpen (state (loop_run Hub.handle evs Hub.boot)) c = false)))
    by (destruct H as [_ [H|[H _]]]; auto).
  apply (loop_run_ind Hub.handle Hub.boot
           (fun _ p =>
              sound (state p)
              /\ (handshakes c (trace p) = []
                  \/ (handshakes c (trace p) = [(1001, lit "Server shutting down")]
                      /\ is_Some (Hub.sockets (state p) !! c)
                      /\ HubObs.isOpen (state p) c = false)))).
  - split; [split; [constructor | apply boot_numbered] | now left].
  - clear evs. intros evs ev. generalize (loop_run Hub.handle evs Hub.boot) as p.
    intros p [Hs IH].
    destruct (status p) eqn:Hst;
      [|rewrite loop_step_stopped by congruence; now split ..].
    rewrite loop_step_running by assumption. cbn [state trace].
    split; [now apply handle_sound|].
    rewrite handshakes_app, handle_handshakes by apply Hs.
    destruct IH as [IH|(IH & Hc & Ho)].
    + rewrite IH. cbn [app].
      destruct ev; auto.
      destruct (existsb (Nat.eqb c) (Hub.clients (state p))) eqn:Hm; [|now left].
      destruct (HubObs.isOpen (state p) c) eqn:Ho; [|now left].
      right. split; [reflexivity|]. split.
      * apply handle_socket; [apply Hs | now apply isOpen_is_Some].
      * rewrite handle_Signalled. apply after_signal_none_open.
        apply existsb_exists in Hm as (x & Hx & Hxc). apply Nat.eqb_eq in Hxc.
        now subst x.
    + destruct (handle_socket ev (state p) c (proj2 Hs) Hc) as [Hc' Ho'].
      right. rewrite IH. split; [|split; [exact Hc' | exact (Ho' Ho)]].
      destruct ev; rewrite ?app_nil_r; try reflexivity.
      now rewrite Ho, andb_false_r, app_nil_r.
Qed.

(** X6. The text of every frame the hub sends is well-formed on the wire
    and reads back as itself, whatever bytes came in. *)
Theorem hub_frames_well_formed (evs : list Hub.Event) (m : nat) :
  Forall (fun f => Utf.is_utf8 (Utf.text_payload (fst f)) = true
                   /\ Utf.toString (Utf.text_payload (fst f)) = fst f)
         (sends_to m (trace (Hub.run evs Hub.boot))).
Proof.
  unfold Hub.run.
  enough (H : List.NoDup (Hub.clients (state (loop_run Hub.handle evs Hub.boot)))
              /\ Forall (fun f => Utf.is_utf8 (Utf.text_payload (fst f)) = true
                                  /\ Utf.toString (Utf.text_payload (fst f)) = fst f)
                        (sends_to m (trace (loop_run Hub.handle evs Hub.boot))))
    by apply H.
  apply (loop_run_ind Hub.handle Hub.boot
           (fun _ p =>
              List.NoDup (Hub.clients (state p))
              /\ Forall (fun f => Utf.is_utf8 (Utf.text_payload (fst f)) = true
                                  /\ Utf.toString (Utf.text_payload (fst f)) = fst f)
                        (sends_to m (trace p)))).
  - split; constructor.
  - clear evs. intros evs ev. generalize (loop_run Hub.handle evs Hub.boot) as p.
    intros p [Hnd IH].
    destruct (status p) eqn:Hst;
      [|rewrite loop_step_stopped by congruence; now split ..].
    rewrite loop_step_running by assumption. cbn [state trace].
    split; [now apply handle_NoDup|].
    rewrite sends_to_app. apply Forall_app. split; [exact IH|].
    rewrite handle_sends by assumption.
    destruct ev; try constructor.
    destruct (Hub.sockets (state p) !! c); [|constructor].
    destruct (_ && _); constructor; [|constructor].
    cbn [fst]. split; [apply relayed_is_utf8 | apply toString_relayed].
Qed.

(** X7. While the listener runs, a connection adds one new socket, open,
    at the end of [wss.clients], leaves the other sockets as they were, and
    logs the size of the set with the newcomer in it. *)
Theorem hub_connection_joins_set (evs : list Hub.Event) :
  let p := Hub.run evs Hub.boot in
  let c := Hub.nextId (state p) in
  let p' := Hub.step Hub.Connection p in
  status p = Running ->
  Hub.server (state p) = Hub.SrvRunning ->
  ~ In c (Hub.clients (state p))
  /\ Hub.clients (state p') = Hub.clients (state p) ++ [c]
  /\ HubObs.isOpen (state p') c = true
  /\ (forall x, x <> c -> Hub.sockets (state p') !! x = Hub.sockets (state p) !! x)
  /\ trace p'
     = trace p ++ [ConsoleLog [VStr (lit "New client connected. Total clients:");
                               VNum (Z.of_nat (length (Hub.clients (state p'))))]]
  /\ status p' = Running.
Proof.
  intros p c p' Hr Hsrv.
  destruct (boot_sound evs) as [_ [_ Hc]]. fold p in Hc.
  assert (Hfresh : ~ In c (Hub.clients (state p))).
  { intros Hin. specialize (Hc c Hin). unfold c in Hc. lia. }
  assert (He : existsb (Nat.eqb c) (Hub.clients (state p)) = false).
  { destruct (existsb (Nat.eqb c) (Hub.clients (state p))) eqn:E; [|reflexivity].
    apply existsb_exists in E as (x & Hx & Hxc). apply Nat.eqb_eq in Hxc.
    subst x. contradiction. }
  assert (Hp : p' = {| state := {| Hub.sockets :=
                                     insert c {| readyState := OPEN; writable := true |}
                                            (Hub.sockets (state p));
                                   Hub.clients := Hub.clients (state p) ++ [c];
                                   Hub.nextId := S c;
                                   Hub.server := Hub.SrvRunning;
                                   Hub.closeListeners := Hub.closeListeners (state p) |};
                       trace := trace p
                                  ++ [ConsoleLog
                                        [VStr (lit "New client connected. Total clients:");
                                         VNum (Z.of_nat (length (Hub.clients (state p) ++ [c])))]];
                       status := Running |}).
  { unfold p'. rewrite step_running by assumption.
    cbn [Hub.handle]. unfold Hub.accept, Hub.onConnection. js.
    rewrite Hsrv. cbn -[lit]. fold c. rewrite He, ?Hsrv. reflexivity. }
  rewrite Hp. cbn [state trace status Hub.clients Hub.sockets].
  split; [exact Hfresh|]. split; [reflexivity|]. split.
  - unfold HubObs.isOpen. cbn [Hub.sockets]. now rewrite lookup_insert_eq.
  - split; [|split; reflexivity].
    intros x Hx. now rewrite lookup_insert_ne by congruence.
Qed.

Lemma hub_connection_joins_set_witness :
  status (Hub.run [Hub.Connection; Hub.Connection; Hub.SocketClose 0] Hub.boot) = Running
  /\ Hub.server (state (Hub.run [Hub.Connection; Hub.Connection; Hub.SocketClose 0]
                          Hub.boot)) = Hub.SrvRunning
  /\ Hub.clients (state (Hub.step Hub.Connection
                           (Hub.run [Hub.Connection; Hub.Connection; Hub.SocketClose 0]
                              Hub.boot)))
     = [1%nat; 2%nat].
Proof.
  assert (H0 : status (Hub.run [Hub.Connection; Hub.Connection; Hub.SocketClose 0]
                         Hub.boot) = Running) by reflexivity.
  assert (H1 : Hub.server (state (Hub.run [Hub.Connection; Hub.Connection;
                                           Hub.SocketClose 0] Hub.boot))
               = Hub.SrvRunning) by reflexivity.
  pose proof (hub_connection_joins_set
                [Hub.Connection; Hub.Connection; Hub.SocketClose 0] H0 H1)
    as (_ & Ha & _).
  split; [exact H0|]. split; [exact H1 | exact Ha].
Defined.

Lemma filter_out_length (c : nat) cs :
  List.NoDup cs -> In c cs ->
  S (length (List.filter (fun x => negb (Nat.eqb x c)) cs)) = length cs.
Proof.
  intros Hnd. induction Hnd as [|x cs Hx Hnd IH]; intros Hin; [destruct Hin|].
  cbn [List.filter length]. destruct (Nat.eqb_spec x c) as [->|Hne]; cbn [negb].
  - f_equal. clear IH Hin Hnd. induction cs as [|y cs IH]; [reflexivity|].
    cbn [List.filter]. destruct (Nat.eqb_spec y c) as [->|_].
    + exfalso. apply Hx. now left.
    + cbn [negb length]. f_equal. apply IH. intros H. apply Hx. now right.
  - cbn [length]. f_equal. apply IH. destruct Hin; [contradiction | assumption].
Qed.

(** X8. When a member's socket closes, that socket and no other leaves
    [wss.clients].  The library takes it out before the handler of
    ['close'] runs, so the count the handler logs, [size - 1], is one less
    than the number of members that are left. *)
Theorem hub_disconnect_leaves_set (evs : list Hub.Event) (c : nat) :
  let p := Hub.run evs Hub.boot in
  let p' := Hub.step (Hub.SocketClose c) p in
  status p = Running ->
  is_Some (Hub.sockets (state p) !! c) ->
  In c (Hub.clients (state p)) ->
  ~ In c (Hub.clients (state p'))
  /\ (forall x, x <> c -> (In x (Hub.clients (state p')) <-> In x (Hub.clients (state p))))
  /\ S (length (Hub.clients (state p'))) = length (Hub.clients (state p))
  /\ HubObs.isOpen (state p') c = false
  /\ trace p'
     = trace p ++ [ConsoleLog [VStr (lit "Client disconnected. Total clients:");
                               VNum (Z.of_nat (length (Hub.clients (state p'))) - 1)]]
  /\ status p' = Running.
Proof.
  intros p p' Hr [w Hw] Hin.
  pose proof (boot_NoDup evs) as Hnd. fold p in Hnd.
  assert (Hp : p' = {| state :=
                         {| Hub.sockets := insert c (with_readyState CLOSED w)
                                                  (Hub.sockets (state p));
                            Hub.clients := List.filter (fun x => negb (Nat.eqb x c))
                                                       (Hub.clients (state p));
                            Hub.nextId := Hub.nextId (state p);
                            Hub.server := Hub.server (state p);
                            Hub.closeListeners := Hub.closeListeners (state p) |};
                       trace := trace p
                                  ++ [ConsoleLog
                                        [VStr (lit "Client disconnected. Total clients:");
                                         VNum (Z.of_nat
                                                 (length (List.filter
                                                            (fun x => negb (Nat.eqb x c))
                                                            (Hub.clients (state p)))) - 1)]];
                       status := Running |}).
  { unfold p'. rewrite step_running by assumption.
    cbn [Hub.handle]. unfold Hub.on, Hub.update, Hub.onClose. js.
    rewrite Hw. cbn -[lit]. unfold Hub.set_clients, Hub.set_sockets. cbn -[lit]. rewrite ?Hw. reflexivity. }
  rewrite Hp. cbn [state trace status Hub.clients Hub.sockets].
  split.
  { intros H. apply filter_In in H as [_ H]. now rewrite Nat.eqb_refl in H. }
  split.
  { intros x Hx. rewrite filter_In.
    destruct (Nat.eqb_spec x c); [contradiction|]. cbn. tauto. }
  split; [now apply filter_out_length|]. split; [|split; reflexivity].
  unfold HubObs.isOpen. cbn [Hub.sockets]. now rewrite lookup_insert_eq.
Qed.

Lemma hub_disconnect_leaves_set_witness :
  status (Hub.run [Hub.Connection; Hub.Connection] Hub.boot) = Running
  /\ is_Some (Hub.sockets (state (Hub.run [Hub.Connection; Hub.Connection] Hub.boot))
                !! 1%nat)
  /\ In 1%nat (Hub.clients (state (Hub.run [Hub.Connection; Hub.Connection] Hub.boot)))
  /\ trace (Hub.step (Hub.SocketClose 1)
              (Hub.run [Hub.Connection; Hub.Connection] Hub.boot))
     = trace (Hub.run [Hub.Connection; Hub.Connection] Hub.boot)
       ++ [ConsoleLog [VStr (lit "Client disconnected. Total clients:"); VNum 0]].
Proof.
  assert (H0 : status (Hub.run [Hub.Connection; Hub.Connection] Hub.boot) = Running)
    by reflexivity.
  assert (H1 : is_Some (Hub.sockets (state (Hub.run [Hub.Connection; Hub.Connection]
                                              Hub.boot)) !! 1%nat))
    by (eexists; reflexivity).
  assert (H2 : In 1%nat (Hub.clients (state (Hub.run [Hub.Connection; Hub.Connection]
                                               Hub.boot))))
    by (right; left; reflexivity).
  pose proof (hub_disconnect_leaves_set [Hub.Connection; Hub.Connection] 1 H0 H1 H2)
    as (_ & _ & _ & _ & Ha & _).
  split; [exact H0|]. split; [exact H1|]. split; [exact H2 | exact Ha].
Defined.

Section Lines.
Import Utf.

Ltac bounds :=
  repeat match goal with
  | H : in_range _ _ _ = true |- _ => apply in_range_true in H
  | H : in_range _ _ _ = false |- _ => apply in_range_false in H
  | H : _ && _ = true |- _ => apply andb_true_iff in H as [? ?]
  | H : negb _ = true |- _ => apply negb_true_iff in H
  end.

(** The code points of a well-formed string are scalar values, and their
    UTF-16 form is the string. *)
Lemma utf16_decode_well_formed s :
  well_formed s = true ->
  Forall scalar (utf16_decode s) /\ flat_map utf16_of_cp (utf16_decode s) = s.
Proof.
  induction s as [s IH] using length_ind.
  destruct s as [|u r]; [split; [constructor | reflexivity]|].
  cbn [well_formed utf16_decode].
  destruct (in_range 0xD800 0xDBFF u) eqn:Hu.
  - destruct r as [|v r']; [discriminate|]. intros H.
    apply andb_true_iff in H as [Hv Hr]. rewrite Hv.
    destruct (IH r') as [IH1 IH2]; [simpl; lia | assumption |].
    bounds. split.
    + constructor; [unfold scalar; lia | exact IH1].
    + cbn [flat_map]. rewrite IH2. unfold utf16_of_cp.
      destruct (Z.ltb_spec (65536 + (u - 55296) * 1024 + (v - 56320)) 65536); [lia|].
      cbn [app]. f_equal; [|f_equal]; Z.div_mod_to_equations; lia.
  - intros H. apply andb_true_iff in H as [H Hr].
    apply andb_true_iff in H as [Hb Hl]. apply negb_true_iff in Hl. rewrite Hl.
    destruct (IH r) as [IH1 IH2]; [simpl; lia | assumption |].
    bounds. split.
    + constructor; [unfold scalar; lia | exact IH1].
    + cbn [flat_map]. rewrite IH2. unfold utf16_of_cp.
      destruct (Z.ltb_spec u 65536); [reflexivity | lia].
Qed.

Lemma utf8_decode_encoded cps :
  Forall scalar cps -> utf8_decode (flat_map utf8_of_cp cps) = cps.
Proof.
  induction 1 as [|c cps Hc _ IH]; [reflexivity|].
  cbn [flat_map]. unfold utf8_decode in *. rewrite scan_utf8_of_cp by assumption.
  cbn [List.map default]. now rewrite IH.
Qed.

End Lines.

Lemma line_round_trip_parts (line : jsstring) :
  well_formed line = true ->
  Forall Utf.scalar (Utf.utf16_decode line)
  /\ Utf.toString (Utf.text_payload line) = line.
Proof.
  intros Hw. destruct (utf16_decode_well_formed line Hw) as [Hs Hl].
  split; [exact Hs|]. unfold Utf.text_payload, Utf.toString.
  rewrite utf8_decode_encoded by assumption. exact Hl.
Qed.

(** X9. A well-formed line survives the wire: the frame written for it is
    well-formed UTF-8 and [toString] reads the line back unchanged. *)
Theorem line_round_trip (line : jsstring) :
  well_formed line = true ->
  Utf.is_utf8 (Utf.text_payload line) = true
  /\ Utf.toString (Utf.text_payload line) = line.
Proof.
  intros Hw. destruct (utf16_decode_well_formed line Hw) as [Hs Hl].
  unfold Utf.text_payload, Utf.toString. split.
  - now apply is_utf8_encoded.
  - rewrite utf8_decode_encoded by assumption. exact Hl.
Qed.

Lemma line_round_trip_witness :
  well_formed [0x68; 0xE9; 0x20AC; 0xD83D; 0xDE00] = true
  /\ Utf.toString (Utf.text_payload [0x68; 0xE9; 0x20AC; 0xD83D; 0xDE00])
     = [0x68; 0xE9; 0x20AC; 0xD83D; 0xDE00].
Proof.
  assert (H : well_formed [0x68; 0xE9; 0x20AC; 0xD83D; 0xDE00] = true) by reflexivity.
  split; [exact H | exact (proj2 (line_round_trip _ H))].
Defined.

(** X10. From keyboard to screen: a well-formed line typed at a connected
    peer goes out as one frame; the hub, receiving that frame's payload,
    hands every open member exactly that line; and a peer receiving the
    hub's frame prints ["> "] followed by the line. *)
Theorem line_reaches_every_peer
    (sender viewer : Process Peer.State) (evs : list Hub.Event)
    (c m : nat) (line : jsstring) :
  let hub := state (Hub.run evs Hub.boot) in
  status sender = Running ->
  Peer.rl (state sender) = true ->
  PeerObs.isOpen (state sender) = true ->
  well_formed line = true ->
  is_Some (Hub.sockets hub !! c) ->
  In m (Hub.clients hub) ->
  HubObs.isOpen hub m = true ->
  status viewer = Running ->
  frames (trace (Peer.step (Peer.Line line) sender))
  = frames (trace sender) ++ [(Peer.ws, line)]
  /\ List.map fst (sends_to m (HubObs.broadcast hub c (Utf.text_payload line))) = [line]
  /\ trace (Peer.step (Peer.Message (Utf.text_payload line)) viewer)
     = trace viewer ++ [ConsoleLog [VStr (lit "> " ++ line)]].
Proof.
  intros hub Hs Hrl Ho Hw Hc Hm Hmo Hv.
  destruct (line_round_trip_parts line Hw) as [_ Hrt].
  split; [|split].
  - rewrite peer_step_running by assumption. cbn [Peer.handle trace]. js.
    rewrite Hrl, onLine_run, Ho. cbn [effects_of snd].
    rewrite frames_app. reflexivity.
  - unfold hub. rewrite broadcast_sends by (try assumption; apply boot_NoDup).
    fold hub. rewrite Hmo. cbn [List.map fst]. now rewrite Hrt.
  - rewrite peer_step_running by assumption. cbn [Peer.handle trace].
    unfold Peer.onMessage, console_log, emit. cbn [effects_of snd]. now rewrite Hrt.
Qed.

Lemma line_reaches_every_peer_witness :
  status Sample.connected = Running
  /\ Peer.rl (state Sample.connected) = true
  /\ PeerObs.isOpen (state Sample.connected) = true
  /\ well_formed (lit "hello") = true
  /\ is_Some (Hub.sockets Sample.two_clients !! 0%nat)
  /\ In 1%nat (Hub.clients Sample.two_clients)
  /\ HubObs.isOpen Sample.two_clients 1 = true
  /\ List.map fst (sends_to 1 (HubObs.broadcast Sample.two_clients 0
                                 (Utf.text_payload (lit "hello"))))
     = [lit "hello"]
  /\ trace (Peer.step (Peer.Message (Utf.text_payload (lit "hello"))) Sample.connected)
     = trace Sample.connected ++ [ConsoleLog [VStr (lit "> hello")]].
Proof.
  assert (H0 : status Sample.connected = Running) by reflexivity.
  assert (H1 : Peer.rl (state Sample.connected) = true) by reflexivity.
  assert (H2 : PeerObs.isOpen (state Sample.connected) = true) by reflexivity.
  assert (H3 : well_formed (lit "hello") = true) by reflexivity.
  assert (H4 : is_Some (Hub.sockets Sample.two_clients !! 0%nat))
    by (eexists; reflexivity).
  assert (H5 : In 1%nat (Hub.clients Sample.two_clients)) by (right; left; reflexivity).
  assert (H6 : HubObs.isOpen Sample.two_clients 1 = true) by reflexivity.
  pose proof (line_reaches_every_peer Sample.connected Sample.connected
                [Hub.Connection; Hub.Connection] 0 1 (lit "hello")
                H0 H1 H2 H3 H4 H5 H6 H0) as (_ & Ha & Hb).
  split; [exact H0|]. split; [exact H1|]. split; [exact H2|]. split; [exact H3|].
  split; [exact H4|]. split; [exact H5|]. split; [exact H6|].
  split; [exact Ha | exact Hb].
Defined.


Section PeerRuns.
Import PeerObs.

(** The frames a handler of the peer sends. *)
Lemma peer_handle_frames ev s :
  frames (effects_of (Peer.handle ev s))
  = match ev with
    | Peer.Line line => if Peer.rl s && isOpen s then [(Peer.ws, line)] else []
    | _ => []
    end.
Proof.
  destruct ev; try reflexivity.
  - cbn [Peer.handle]. unfold Peer.onOpen. js.
    destruct (readyState (Peer.socket s)); reflexivity.
  - cbn [Peer.handle]. js. destruct (Peer.rl s); [|reflexivity].
    rewrite onLine_run. cbn [andb]. destruct (isOpen s); reflexivity.
  - cbn [Peer.handle]. destruct sig; rewrite shutdownClient_run;
      destruct (isOpen s); reflexivity.
Qed.

Lemma typed_app e1 e2 : typed (e1 ++ e2) = typed e1 ++ typed e2.
Proof. apply flat_map_app. Qed.

Lemma received_app e1 e2 : received (e1 ++ e2) = received e1 ++ received e2.
Proof. apply flat_map_app. Qed.

Lemma displayed_app t1 t2 : displayed (t1 ++ t2) = displayed t1 ++ displayed t2.
Proof. apply flat_map_app. Qed.

(** Handlers other than those of ['close'] and of the signals finish
    normally, and only the handler of ['message'] writes behind the
    prompt. *)
Lemma peer_handle_quiet ev s :
  ends_peer ev = false ->
  outcome_of (Peer.handle ev s) = Normal tt
  /\ displayed (effects_of (Peer.handle ev s))
     = match ev with
       | Peer.Message data => [Utf.toString data]
       | _ => []
       end.
Proof.
  intros Hev. destruct ev; try discriminate.
  - cbn [Peer.handle]. unfold Peer.onOpen. js.
    destruct (readyState (Peer.socket s)); split; reflexivity.
  - cbn [Peer.handle]. js. destruct (Peer.rl s); [|split; reflexivity].
    rewrite onLine_run. destruct (isOpen s); split; reflexivity.
  - split; reflexivity.
  - split; reflexivity.
  - split; reflexivity.
  - split; reflexivity.
Qed.

End PeerRuns.

(** X11. Every frame the peer sends is a line that was typed, sent on its
    one socket, at most once and in the order typed. *)
Theorem peer_frames_are_typed_lines (evs : list Peer.Event) :
  sublist (frames (trace (Peer.run evs Peer.boot)))
          (List.map (fun line => (Peer.ws, line)) (typed evs)).
Proof.
  unfold Peer.run.
  apply (loop_run_ind Peer.handle Peer.boot
           (fun evs p => sublist (frames (trace p))
                                 (List.map (fun line => (Peer.ws, line)) (typed evs)))).
  - constructor.
  - clear evs. intros evs ev IH. rewrite typed_app, map_app.
    destruct (status (loop_run Peer.handle evs Peer.boot)) eqn:Hst;
      [|rewrite loop_step_stopped by congruence; now apply sublist_inserts_r ..].
    rewrite loop_step_running by assumption. cbn [trace].
    rewrite frames_app. apply sublist_app; [exact IH|].
    rewrite peer_handle_frames. destruct ev; cbn; try apply sublist_nil_l.
    destruct (_ && _); [reflexivity | apply sublist_nil_l].
Qed.

(** X12. Nothing but the ['close'] event and the shutdown signals ends a
    running peer: the handlers of the other events finish normally, and
    what the peer prints behind the prompt during them is the messages
    received, decoded, one line each, in the order received. *)
Theorem peer_runs_until_close_or_signal
    (p : Process Peer.State) (evs : list Peer.Event) :
  status p = Running ->
  forallb (fun ev => negb (ends_peer ev)) evs = true ->
  status (Peer.run evs p) = Running
  /\ exit_calls (trace (Peer.run evs p)) = exit_calls (trace p)
  /\ displayed (trace (Peer.run evs p))
     = displayed (trace p) ++ List.map Utf.toString (received evs).
Proof.
  intros Hp H. unfold Peer.run.
  induction evs as [|ev evs IH] using rev_ind.
  - cbn. rewrite app_nil_r. repeat split. exact Hp.
  - rewrite forallb_app in H. apply andb_true_iff in H as [H Hev].
    cbn [forallb] in Hev. rewrite andb_true_r in Hev. apply negb_true_iff in Hev.
    destruct (IH H) as (IH1 & IH2 & IH3). rewrite loop_run_snoc.
    rewrite loop_step_running by assumption. cbn [status trace].
    destruct (peer_handle_quiet ev (state (loop_run Peer.handle evs p)) Hev)
      as [Ho Hd].
    pose proof (peer_handle_exit_calls ev (state (loop_run Peer.handle evs p))) as He.
    rewrite Ho in He |- *. split; [reflexivity|]. split.
    + rewrite exit_calls_app, He, IH2. apply app_nil_r.
    + rewrite displayed_app, received_app, map_app, IH3, Hd, <- app_assoc.
      destruct ev; cbn; rewrite ?app_nil_r; reflexivity.
Qed.

Lemma peer_runs_until_close_or_signal_witness :
  status Sample.connected = Running
  /\ forallb (fun ev => negb (ends_peer ev))
             [Peer.Message Sample.hi; Peer.SocketError Sample.refused;
              Peer.Line (lit "hi"); Peer.Message [0xFF]] = true
  /\ displayed (trace (Peer.run [Peer.Message Sample.hi; Peer.SocketError Sample.refused;
                                 Peer.Line (lit "hi"); Peer.Message [0xFF]]
                                Sample.connected))
     = displayed (trace Sample.connected) ++ [lit "hi"; [0xFFFD]].
Proof.
  assert (H0 : status Sample.connected = Running) by reflexivity.
  assert (H : forallb (fun ev => negb (ends_peer ev))
                [Peer.Message Sample.hi; Peer.SocketError Sample.refused;
                 Peer.Line (lit "hi"); Peer.Message [0xFF]] = true) by reflexivity.
  pose proof (peer_runs_until_close_or_signal _ _ H0 H) as (_ & _ & Hb).
  split; [exact H0|]. split; [exact H | exact Hb].
Defined.

Section PeerEnds.
Import PeerObs.

(** The close handshakes a handler of the peer starts: the handler of the
    signals only, on an open socket, straight before it exits. *)
Lemma peer_handle_handshakes ev s :
  handshakes Peer.ws (effects_of (Peer.handle ev s)) = []
  \/ (exists sig, ev = Peer.Signalled sig)
     /\ effects_of (Peer.handle ev s)
        = [disconnecting; WsClose Peer.ws 1000 (lit "Client exit"); ProcessExit 0]
     /\ outcome_of (Peer.handle ev s) = Exits 0.
Proof.
  destruct ev; try (left; reflexivity).
  - left. cbn [Peer.handle]. unfold Peer.onOpen. js.
    destruct (readyState (Peer.socket s)); reflexivity.
  - left. cbn [Peer.handle]. js. destruct (Peer.rl s); [|reflexivity].
    rewrite onLine_run. destruct (isOpen s); reflexivity.
  - cbn [Peer.handle].
    assert (H : Peer.onSignal sig s = Peer.shutdownClient s)
      by (destruct sig; reflexivity).
    rewrite H, shutdownClient_run. destruct (isOpen s); [right | left; reflexivity].
    split; [eauto|]. split; reflexivity.
Qed.

End PeerEnds.

(** X13. The peer never waits for a close handshake it starts: it starts
    at most one, with code 1000, and the very next thing it does is
    [process.exit(0)], the last thing it does at all. *)
Theorem peer_close_then_exit (evs : list Peer.Event) :
  handshakes Peer.ws (trace (Peer.run evs Peer.boot)) = []
  \/ exists before,
       trace (Peer.run evs Peer.boot)
       = before ++ [WsClose Peer.ws 1000 (lit "Client exit"); ProcessExit 0]
       /\ handshakes Peer.ws before = []
       /\ status (Peer.run evs Peer.boot) = Exited 0.
Proof.
  unfold Peer.run.
  apply (loop_run_ind Peer.handle Peer.boot
           (fun _ p =>
              handshakes Peer.ws (trace p) = []
              \/ exists before,
                   trace p = before ++ [WsClose Peer.ws 1000 (lit "Client exit");
                                        ProcessExit 0]
                   /\ handshakes Peer.ws before = []
                   /\ status p = Exited 0)).
  - now left.
  - clear evs. intros evs ev. generalize (loop_run Peer.handle evs Peer.boot) as p.
    intros p [IH|(before & Ht & Hb & Hst)].
    + destruct (status p) eqn:Hst;
        [|rewrite loop_step_stopped by congruence; now left ..].
      rewrite loop_step_running by assumption. cbn [trace status].
      destruct (peer_handle_handshakes ev (state p)) as [H|(_ & He & Ho)].
      * left. now rewrite handshakes_app, IH, H.
      * right. exists (trace p ++ [PeerObs.disconnecting]).
        rewrite He, Ho. split; [now rewrite <- app_assoc|]. split; [|reflexivity].
        rewrite handshakes_app, IH. reflexivity.
    + right. exists before. rewrite loop_step_stopped by (rewrite Hst; congruence).
      auto.
Qed.

(** X14. On ['close'] the peer prints the code in decimal and the reason
    as text, unchanged when the reason is well-formed, and exits with code
    0; nothing is handled after that.  The notice for the hub's own
    shutdown reads: code 1001, reason "Server shutting down". *)
Theorem peer_close_notice
    (p : Process Peer.State) (code : Z) (reason : jsstring) (later : list Peer.Event) :
  let p' := Peer.step (Peer.Close code (Utf.text_payload reason)) p in
  status p = Running ->
  well_formed reason = true ->
  trace p'
  = trace p
    ++ [ConsoleLog [VStr (lit "Disconnected from server (code: " ++ Number_toString code
                          ++ lit ", reason: " ++ reason ++ lit ")")];
        ProcessExit 0]
  /\ status p' = Exited 0
  /\ Peer.run later p' = p'.
Proof.
  intros p' Hr Hw. destruct (line_round_trip_parts reason Hw) as [_ Hrt].
  assert (Hp : status p' = Exited 0).
  { unfold p'. rewrite peer_step_running by assumption. reflexivity. }
  split; [|split; [exact Hp|]].
  - unfold p'. rewrite peer_step_running by assumption.
    cbn [Peer.handle trace]. unfold Peer.onClose. js. cbn [effects_of snd app].
    now rewrite Hrt.
  - apply loop_run_stopped. rewrite Hp. congruence.
Qed.

Lemma peer_close_notice_witness :
  status Sample.connected = Running
  /\ well_formed HubObs.shutdown_reason = true
  /\ trace (Peer.step (Peer.Close 1001 (Utf.text_payload HubObs.shutdown_reason))
              Sample.connected)
     = trace Sample.connected
       ++ [ConsoleLog
             [VStr (lit "Disconnected from server (code: 1001, reason: Server shutting down)")];
           ProcessExit 0].
Proof.
  assert (H0 : status Sample.connected = Running) by reflexivity.
  assert (H1 : well_formed HubObs.shutdown_reason = true) by reflexivity.
  pose proof (peer_close_notice Sample.connected 1001 HubObs.shutdown_reason [] H0 H1)
    as (Ha & _).
  split; [exact H0|]. split; [exact H1 | exact Ha].
Defined.

(** X15. Whatever its arguments, the script has ended when its top level
    returns, and its exit code is 1.  Without a command, or with an
    unknown one, its last line on stderr is the usage line and its one
    call to [process.exit] the last thing it does.  With [start] or
    [connect] it has printed nothing and made no exit call: it ends by the
    [TypeError] that [process.on] throws, and handles no event. *)
Theorem main_outcomes (table : CaseTable) (argv : list jsstring) :
  program_exit_code (main table argv) = Some 1
  /\ match main table argv with
     | HubProcess p =>
       p = {| state := Hub.startServer; trace := [];
              status := Uncaught process_on_error |}
       /\ forall evs, Hub.run evs p = p
     | PeerProcess p =>
       p = {| state := Peer.startClient; trace := [];
              status := Uncaught process_on_error |}
       /\ forall evs, Peer.run evs p = p
     | Stopped tr st =>
       st = Exited 1
       /\ exit_calls tr = [1]
       /\ (exists before, tr = before ++ [ConsoleError [VStr usage]; ProcessExit 1])
     end.
Proof.
  destruct argv as [|a rest].
  - cbn. split; [reflexivity|]. split; [reflexivity|]. split; [reflexivity|].
    now exists [].
  - rewrite main_dispatch.
    destruct (str_eqb (toLowerCase table a) (lit "start")).
    { split; [reflexivity|]. split; [reflexivity|].
      intros evs. apply loop_run_stopped. discriminate. }
    destruct (str_eqb (toLowerCase table a) (lit "connect")).
    { split; [reflexivity|]. split; [reflexivity|].
      intros evs. apply loop_run_stopped. discriminate. }
    split; [reflexivity|]. split; [reflexivity|]. split; [reflexivity|].
    now exists [ConsoleError [VStr (lit "Unknown command: " ++ toLowerCase table a)]].
Qed.
